(** * ResearchFlow: the retrieval core, embedded in Rocq

    A shallow embedding of [core/chunker.py], [core/vector_store.py],
    [core/retriever.py], [core/translator.py], [core/embedder.py],
    [core/pdf_loader.py] and [core/arxiv_client.py], and the properties of
    the retrieval engine established over it.

    Conventions of the embedding:
    - a Python [str] is a [string]; each character stands for one code point
      below 256, so [len], slicing and [strip] count characters (the fixed
      prompt texts keep the few characters above 255 as their UTF-8 bytes);
    - a Python [int] is a [Z] (or a [nat] where it is a list position);
    - a Python [float] is the rational [Q] it stands for; [round(x, 4)]
      rounds the rational to four decimals, half to even, and a float it
      made is kept as that decimal; the sum and the division behind the
      average score are those of doubles ([double] rounds a rational to
      the nearest double); numeric comparisons are stated with [==], [<]
      and [<=] of [Q];
    - a raised exception is the [Raise] branch of [result];
    - the third-party engines (the ChromaDB index, the sentence-transformer
      embedder, the Ollama chat model, the float printer) are interfaces. *)

From Stdlib Require Import Ascii String QArith Qround Qabs Sorted Lqa.
From stdpp Require Import gmap strings list pretty sorting.

Set Default Proof Using "Type".

(** ** Python values *)

Module Py.

Inductive exn : Type :=
| ValueError (msg : string)
| IndexError
| EngineError (msg : string)
| UpstreamError (msg : string).

Inductive result (A : Type) : Type :=
| Ok (a : A)
| Raise (e : exn).
Global Arguments Ok {A} a.
Global Arguments Raise {A} e.

Definition rbind {A B} (r : result A) (k : A → result B) : result B :=
  match r with
  | Ok a => k a
  | Raise e => Raise e
  end.

(** [l[i]] on a Python list. *)
Definition getitem {A} (l : list A) (i : nat) : result A :=
  match l !! i with
  | Some a => Ok a
  | None => Raise IndexError
  end.

(** [str.isspace] on one code point below 256: the ASCII controls
    TAB..CR and FS..US, the space, NEL (0x85) and NBSP (0xA0). *)
Definition is_space (c : ascii) : bool :=
  let n := nat_of_ascii c in
  ((9 <=? n) && (n <=? 13)) || ((28 <=? n) && (n <=? 32))
  || (n =? 133) || (n =? 160).

Fixpoint lstrip (s : string) : string :=
  match s with
  | EmptyString => EmptyString
  | String c s' => if is_space c then lstrip s' else s
  end.

Fixpoint rstrip (s : string) : string :=
  match s with
  | EmptyString => EmptyString
  | String c s' =>
      match rstrip s' with
      | EmptyString => if is_space c then EmptyString else String c EmptyString
      | r => String c r
      end
  end.

(** [s.strip()] *)
Definition strip (s : string) : string := rstrip (lstrip s).

(** Truthiness of a [str]: [not s] is [negb (truthy s)]. *)
Definition truthy (s : string) : bool :=
  match s with
  | EmptyString => false
  | String _ _ => true
  end.

(** [s[:n]] for [0 <= n] *)
Fixpoint slice_to (n : nat) (s : string) : string :=
  match n, s with
  | O, _ => EmptyString
  | S _, EmptyString => EmptyString
  | S n', String c s' => String c (slice_to n' s')
  end.

(** [sep.join(parts)] *)
Fixpoint join (sep : string) (parts : list string) : string :=
  match parts with
  | [] => EmptyString
  | [p] => p
  | p :: ps => p +:+ sep +:+ join sep ps
  end.

(** [round(x)] to an integer, ties to the even neighbour. *)
Definition round_half_even (x : Q) : Z :=
  let f := Qfloor x in
  match (x - inject_Z f ?= 1 # 2)%Q with
  | Lt => f
  | Gt => (f + 1)%Z
  | Eq => if Z.even f then f else (f + 1)%Z
  end.

(** [round(x, 4)] *)
Definition round4 (x : Q) : Q := (round_half_even (x * 10000) # 10000)%Q.

(** [x < y] and [x >= y] on floats *)
Definition lt (x y : Q) : bool := negb (Qle_bool y x).

(** The line feed *)
Definition nl : string := String (ascii_of_nat 10) EmptyString.

(** [sum(xs)] of floats, from the left, starting at 0. *)
Definition sum (xs : list Q) : Q := foldl Qplus 0%Q xs.

(** A Python float is an IEEE double, and a double is the rational it
    stands for. [binade a] is the exponent [e] with
    [2^52 <= a / 2^e < 2^53], for [0 < a]. *)
Definition pow2 (e : Z) : Q := (2 ^ e)%Q.

Definition binade (a : Q) : Z :=
  let e0 := (Z.log2 (Qnum a) - Z.log2 (Zpos (Qden a)) - 53)%Z in
  if Qle_bool (pow2 (e0 + 53)) a then (e0 + 1)%Z else e0.

(** The double nearest to [x], ties to the even mantissa: 53 bits of
    mantissa, an exponent of -1074 at least; the numbers of the program
    are far from the overflow threshold. *)
Definition double (x : Q) : Q :=
  if Qeq_bool x 0 then 0%Q
  else
    let e := Z.max (binade (Qabs x)) (-1074) in
    (inject_Z (round_half_even (x / pow2 e)) * pow2 e)%Q.

(** [x + y] and [x / y] on floats, for [y] other than zero. *)
Definition fadd (x y : Q) : Q := double (x + y).
Definition fdiv (x y : Q) : Q := double (x / y).

(** [sum(xs)] on floats: from the left, starting at the integer 0. *)
Definition fsum (xs : list Q) : Q := foldl fadd 0%Q xs.

End Py.
Import Py.

(** [x ← r; k] runs [k] on the value of [r] and passes an exception on. *)
#[global] Instance result_bind : MBind result := λ A B k r, rbind r k.
#[global] Instance result_fmap : FMap result := λ A B f r,
  match r with
  | Ok a => Ok (f a)
  | Raise e => Raise e
  end.

(** ** The ChromaDB client, as [core/vector_store.py] uses it *)

Module Chroma.

(** A metadata value: ChromaDB stores strings, integers, floats, booleans. *)
Inductive mvalue : Type :=
| MStr (s : string)
| MInt (z : Z)
| MFloat (q : Q)
| MBool (b : bool).

Record Item : Type := {
  item_id : string;
  item_embedding : list Q;
  item_document : string;
  item_metadata : gmap string mvalue;
}.

Record Collection : Type := {
  col_metadata : gmap string string;
  col_items : list Item;
}.

(** The persistent client: collections keyed by their name. *)
Abbreviation Client := (gmap string Collection).

(** What [collection.query(..., include=[documents, metadatas, distances])]
    returns: one row per query embedding. *)
Record QueryResult : Type := {
  documents : list (list string);
  metadatas : list (list (gmap string mvalue));
  distances : list (list Q);
}.

(** The nearest-neighbour engine behind [collection.query], asked with one
    query embedding and [n_results]. *)
Class Engine : Type :=
  engine_query : Collection → list Q → Z → result QueryResult.

(** [client.get_or_create_collection(name, metadata)]: the handle is the
    name under which the client keeps the collection. *)
Definition get_or_create_collection
    (cl : Client) (name : string) (md : gmap string string) : Client * string :=
  match cl !! name with
  | Some _ => (cl, name)
  | None => (<[name := {| col_metadata := md; col_items := [] |}]> cl, name)
  end.

(** [client.get_collection(name)] raises for an unknown name. *)
Definition get_collection (cl : Client) (name : string) : result string :=
  match cl !! name with
  | Some _ => Ok name
  | None => Raise (ValueError ("Collection " +:+ name +:+ " does not exist."))
  end.

(** [collection.count()] through a handle. *)
Definition count (cl : Client) (handle : string) : result Z :=
  match cl !! handle with
  | Some c => Ok (Z.of_nat (length (col_items c)))
  | None => Raise (ValueError ("Collection " +:+ handle +:+ " does not exist."))
  end.

(** [collection.query(query_embeddings=[q], n_results=k, include=...)] *)
Definition query `{Engine} (cl : Client) (handle : string)
    (q : list Q) (k : Z) : result QueryResult :=
  match cl !! handle with
  | Some c => engine_query c q k
  | None => Raise (ValueError ("Collection " +:+ handle +:+ " does not exist."))
  end.

(** [client.delete_collection(name)] raises for an unknown name. *)
Definition delete_collection (cl : Client) (name : string) : result Client :=
  match cl !! name with
  | Some _ => Ok (delete name cl)
  | None => Raise (ValueError ("Collection " +:+ name +:+ " does not exist."))
  end.

(** What the callers rely on from the engine: one row per query, its
    three columns of one length, at most [k] neighbours, nearest first,
    and no neighbour in an empty collection. *)
Class EngineLaws `{Engine} : Prop := {
  query_one_row c q k r :
    engine_query c q k = Ok r →
    ∃ ds ms xs, documents r = [ds] ∧ metadatas r = [ms] ∧ distances r = [xs]
                ∧ length ms = length ds ∧ length xs = length ds;
  query_at_most c q k r ds :
    engine_query c q k = Ok r → documents r = [ds] →
    (Z.of_nat (length ds) ≤ k)%Z;
  query_ascending c q k r xs :
    engine_query c q k = Ok r → distances r = [xs] → Sorted Qle xs;
  query_empty c q k :
    col_items c = [] → (0 < k)%Z →
    engine_query c q k
    = Ok {| documents := [[]]; metadatas := [[]]; distances := [[]] |};
}.

(** An exact engine: every item is ranked by its distance to the query
    and the [k] nearest are returned. On unit vectors the cosine distance
    is one minus the inner product. *)
Definition dot (a b : list Q) : Q := sum (zip_with Qmult a b).

Definition unit_cosine_distance (a b : list Q) : Q := 1 - dot a b.

Fixpoint insert_ranked (x : Q * Item) (l : list (Q * Item)) : list (Q * Item) :=
  match l with
  | [] => [x]
  | y :: l' => if Qle_bool x.1 y.1 then x :: l else y :: insert_ranked x l'
  end.

Definition rank (q : list Q) (items : list Item) : list (Q * Item) :=
  foldr insert_ranked []
    ((λ it, (unit_cosine_distance q (item_embedding it), it)) <$> items).

Definition exact_engine : Engine := λ c q k,
  if (k <=? 0)%Z
  then Raise (EngineError "Number of requested results cannot be negative, or zero.")
  else
    let top := take (Z.to_nat k) (rank q (col_items c)) in
    Ok {| documents := [(λ x, item_document x.2) <$> top];
          metadatas := [(λ x, item_metadata x.2) <$> top];
          distances := [fst <$> top] |}.

End Chroma.
Import Chroma.

(** ** [core/vector_store.py] *)

Module VectorStore.

(** One entry of the list [search] returns. *)
Record ScoredChunk : Type := {
  text : string;
  metadata : gmap string mvalue;
  distance : Q;
  similarity : Q;
}.

Definition cosine_space : gmap string string := {[ "hnsw:space" := "cosine" ]}.

(** [VectorStore.create_collection] *)
Definition create_collection (cl : Client) (collection_name : string)
    : Client * string :=
  get_or_create_collection cl collection_name cosine_space.

(** The body of the reformatting loop of [search], at index [i]. *)
Definition search_row (results : QueryResult) (i : nat) : result ScoredChunk :=
  docs ← getitem (documents results) 0;
  t ← getitem docs i;
  metas ← getitem (metadatas results) 0;
  m ← getitem metas i;
  dists ← getitem (distances results) 0;
  d ← getitem dists i;
  Ok {| text := t; metadata := m; distance := d;
        similarity := round4 (1 - d) |}.

(** [for i in range(n): chunks.append(...)], from index [i]. *)
Fixpoint search_rows (results : QueryResult) (i n : nat)
    : result (list ScoredChunk) :=
  match n with
  | O => Ok []
  | S n' =>
      c ← search_row results i;
      cs ← search_rows results (S i) n';
      Ok (c :: cs)
  end.

(** [VectorStore.search] *)
Definition search `{Engine} (cl : Client) (collection_name : string)
    (query_embedding : list Q) (n_results : Z)
    : result (list ScoredChunk) * Client :=
  let '(cl', collection) := create_collection cl collection_name in
  (results ← query cl' collection query_embedding n_results;
   docs ← getitem (documents results) 0;
   search_rows results 0 (length docs),
   cl').

(** [VectorStore.collection_exists]: any exception gives [False]. *)
Definition collection_exists (cl : Client) (collection_name : string) : bool :=
  match (col ← get_collection cl collection_name; count cl col) with
  | Ok n => (n >? 0)%Z
  | Raise _ => false
  end.

(** [VectorStore.get_collection_count]: any exception gives [0]. *)
Definition get_collection_count (cl : Client) (collection_name : string) : Z :=
  match (col ← get_collection cl collection_name; count cl col) with
  | Ok n => n
  | Raise _ => 0%Z
  end.

(** [VectorStore.delete_collection]: any exception is swallowed. *)
Definition delete_collection (cl : Client) (collection_name : string) : Client :=
  match Chroma.delete_collection cl collection_name with
  | Ok cl' => cl'
  | Raise _ => cl
  end.

End VectorStore.

Import VectorStore.

(** ** The world the retriever and the orchestrator act on *)

Module World.

(** A chat message handed to the generation port. *)
Inductive Message : Type :=
| SystemMessage (content : string)
| HumanMessage (content : string).

(** [Embedder.embed_single]: the sentence-transformer model. *)
Class Embedder : Type := embed_single : string → result (list Q).

(** [ChatOllama.invoke]: the generation port; its value is
    [response.content]. *)
Class ChatModel : Type := llm_invoke : list Message → result string.

(** How Python prints a float inside an f-string. *)
Class FloatRepr : Type := float_str : Q → string.

(** The index, and the calls made so far to the two model ports. *)
Record world : Type := {
  store : Client;
  embed_calls : list string;
  llm_calls : list (list Message);
}.

(** A method: it may raise, and it leaves a world behind either way. *)
Definition M (A : Type) : Type := world → result A * world.

#[global] Instance M_ret : MRet M := λ A a w, (Ok a, w).
#[global] Instance M_bind : MBind M := λ A B k m w,
  match m w with
  | (Ok a, w') => k a w'
  | (Raise e, w') => (Raise e, w')
  end.

Definition raise {A} (e : exn) : M A := λ w, (Raise e, w).

(** The world with one more call to the generation port on record. *)
Definition with_llm_call (w : world) (messages : list Message) : world :=
  {| store := store w; embed_calls := embed_calls w;
     llm_calls := llm_calls w ++ [messages] |}.

(** [self.embedder.embed_single(text)] *)
Definition call_embed `{Embedder} (text : string) : M (list Q) := λ w,
  (embed_single text,
   {| store := store w; embed_calls := embed_calls w ++ [text];
      llm_calls := llm_calls w |}).

(** [self.llm.invoke(messages).content] *)
Definition call_llm `{ChatModel} (messages : list Message) : M string := λ w,
  (llm_invoke messages, with_llm_call w messages).

(** [self.vector_store.search(...)] *)
Definition call_search `{Engine} (collection_name : string)
    (query_embedding : list Q) (n_results : Z) : M (list ScoredChunk) := λ w,
  let '(r, cl) := search (store w) collection_name query_embedding n_results in
  (r, {| store := cl; embed_calls := embed_calls w; llm_calls := llm_calls w |}).

End World.
Import World.

(** ** [core/retriever.py] *)

Module Retriever.

Record t : Type := {
  collection_name : string;
  n_results : Z;
}.

(** [str(v)] of a metadata value inside an f-string. *)
Definition mvalue_str `{FloatRepr} (v : mvalue) : string :=
  match v with
  | MStr s => s
  | MInt z => pretty z
  | MFloat q => float_str q
  | MBool true => "True"
  | MBool false => "False"
  end.

(** [Retriever.retrieve] *)
Definition retrieve `{Engine, Embedder} (self : t) (query : string)
    : M (list ScoredChunk) :=
  if negb (truthy query) || negb (truthy (strip query))
  then raise (ValueError "Query cannot be empty")
  else
    query_embedding ← call_embed query;
    call_search (collection_name self) query_embedding (n_results self).

(** One labelled block of [retrieve_as_context]. *)
Definition context_part `{FloatRepr} (i : nat) (chunk : ScoredChunk) : string :=
  let source := default (MStr "unknown") (metadata chunk !! "source") in
  "[CONTEXT " +:+ pretty (i + 1) +:+ " | Source: " +:+ mvalue_str source
    +:+ " | Relevance: " +:+ float_str (similarity chunk) +:+ "]" +:+ nl
    +:+ text chunk.

Definition format_context `{FloatRepr} (chunks : list ScoredChunk) : string :=
  match chunks with
  | [] => "No relevant context found."
  | _ => join (nl +:+ nl +:+ "---" +:+ nl +:+ nl) (imap context_part chunks)
  end.

(** [Retriever.retrieve_as_context] *)
Definition retrieve_as_context `{Engine, Embedder, FloatRepr}
    (self : t) (query : string) : M string :=
  chunks ← retrieve self query;
  mret (format_context chunks).

(** The local [avg_score] of [retrieve_with_scores], before rounding: a
    sum and a division of doubles. The similarity of a chunk is the double
    nearest to the decimal [round] made. *)
Definition avg_score (chunks : list ScoredChunk) : Q :=
  fdiv (fsum ((λ chunk, double (similarity chunk)) <$> chunks))
       (inject_Z (Z.of_nat (length chunks))).

(** [Retriever.retrieve_with_scores] *)
Definition retrieve_with_scores `{Engine, Embedder} (self : t) (query : string)
    : M (list ScoredChunk * Q) :=
  chunks ← retrieve self query;
  match chunks with
  | [] => mret ([], 0%Q)
  | _ => mret (chunks, round4 (avg_score chunks))
  end.


End Retriever.

(** ** [core/translator.py] *)

Module Translator.
Import Retriever.

(** [Translator.SUPPORTED_LANGUAGES] *)
Definition SUPPORTED_LANGUAGES : list string :=
  [ "Hindi"; "Gujarati"; "Spanish"; "French"; "German";
    "Chinese"; "Japanese"; "Arabic"; "Portuguese"; "Italian";
    "Korean"; "Russian"; "Dutch"; "Turkish"; "Bengali" ].

(** The dictionary [answer_question] returns. *)
Record Answer : Type := {
  answer : string;
  context_used : list ScoredChunk;
  avg_relevance : Q;
}.

(** The dictionary [translate] returns. *)
Record Translation : Type := {
  translation : string;
  target_language : string;
  translation_context_used : list ScoredChunk;
}.

Definition no_information : string :=
  "I couldn't find relevant information in the paper to answer this question.".

Definition qa_system_message : Message :=
  SystemMessage ("You are an expert research paper assistant." +:+ nl
    +:+ "Your job is to answer questions about research papers clearly and accurately." +:+ nl
    +:+ nl
    +:+ "Rules:" +:+ nl
    +:+ "- Only use the provided context to answer" +:+ nl
    +:+ "- If the context doesn't contain the answer, say so honestly" +:+ nl
    +:+ "- Use simple language to explain complex concepts" +:+ nl
    +:+ "- Be concise but complete" +:+ nl
    +:+ "- Always cite which context section your answer comes from").

Definition qa_human_message (context question : string) : Message :=
  HumanMessage ("Here is the relevant context from the research paper:" +:+ nl
    +:+ nl
    +:+ context +:+ nl
    +:+ nl
    +:+ "Based on the context above, please answer this question:" +:+ nl
    +:+ question).

(** [Translator.answer_question] *)
Definition answer_question `{Engine, Embedder, ChatModel, FloatRepr}
    (retriever : Retriever.t) (question : string) : M Answer :=
  if negb (truthy (strip question))
  then raise (ValueError "Question cannot be empty")
  else
    '(chunks, avg) ← retrieve_with_scores retriever question;
    if lt avg (25 # 100)
    then mret {| answer := no_information; context_used := [];
                 avg_relevance := avg |}
    else
      context ← retrieve_as_context retriever question;
      response ← call_llm [qa_system_message; qa_human_message context question];
      mret {| answer := response; context_used := chunks;
              avg_relevance := avg |}.

Definition translate_system_message (target : string) : Message :=
  SystemMessage ("You are an expert scientific translator " +:+ nl
    +:+ "specializing in translating research papers into " +:+ target +:+ "." +:+ nl
    +:+ nl
    +:+ "Rules:" +:+ nl
    +:+ "- Translate accurately and naturally into " +:+ target +:+ nl
    +:+ "- Preserve all technical terms correctly" +:+ nl
    +:+ "- Keep the academic tone of the original" +:+ nl
    +:+ "- Do not add explanations — only translate" +:+ nl
    +:+ "- If a technical term has no translation, keep it in English").

(** The human message when [context] is not empty. *)
Definition with_reference (context target text : string) : string :=
  "Use this reference context for correct technical terminology:" +:+ nl
    +:+ nl
    +:+ context +:+ nl
    +:+ nl
    +:+ "Now translate the following text into " +:+ target +:+ ":" +:+ nl
    +:+ nl
    +:+ text +:+ nl
    +:+ nl
    +:+ "Provide ONLY the translation, nothing else.".

(** The human message when [context] is empty. *)
Definition without_reference (target text : string) : string :=
  "Translate the following research paper text into " +:+ target +:+ ":" +:+ nl
    +:+ nl
    +:+ text +:+ nl
    +:+ nl
    +:+ "Provide ONLY the translation, nothing else.".

(** [f"[Reference {i+1}]: {c['text']}"] *)
Definition reference_part (i : nat) (c : ScoredChunk) : string :=
  "[Reference " +:+ pretty (i + 1) +:+ "]: " +:+ text c.

(** The [context] built from the retrieved chunks. *)
Definition reference_context (chunks : list ScoredChunk) : string :=
  match chunks with
  | [] => ""
  | _ => join (nl +:+ nl) (imap reference_part (take 2 chunks))
  end.

Definition human_content (context target text : string) : string :=
  if truthy context
  then with_reference context target text
  else without_reference target text.

(** [Translator.translate] *)
Definition translate `{Engine, Embedder, ChatModel}
    (retriever : Retriever.t) (text target : string) (use_context : bool)
    : M Translation :=
  if negb (truthy (strip text))
  then raise (ValueError "Text to translate cannot be empty")
  else if negb (bool_decide (target ∈ SUPPORTED_LANGUAGES))
  then raise (ValueError ("Language not supported. Choose from: "
                            +:+ join ", " SUPPORTED_LANGUAGES))
  else
    '(context, chunks) ←
      (if use_context
       then
         '(chunks, _) ← retrieve_with_scores retriever (slice_to 200 text);
         mret (reference_context chunks, chunks)
       else mret ("", []));
    response ← call_llm [translate_system_message target;
                         HumanMessage (human_content context target text)];
    mret {| translation := response; target_language := target;
            translation_context_used := chunks |}.

(** The dictionary [simplify] returns. *)
Record Simplification : Type := {
  simplified : string;
  original : string;
}.

Definition simplify_system_message : Message :=
  SystemMessage ("You are an expert at explaining " +:+ nl
    +:+ "complex research concepts in simple, everyday language." +:+ nl
    +:+ nl
    +:+ "Rules:" +:+ nl
    +:+ "- Explain as if talking to a smart 16 year old" +:+ nl
    +:+ "- Replace jargon with simple words" +:+ nl
    +:+ "- Use analogies where helpful" +:+ nl
    +:+ "- Keep it concise").

Definition simplify_human_message (text : string) : Message :=
  HumanMessage ("Simplify this research paper text " +:+ nl
    +:+ "into plain English:" +:+ nl
    +:+ nl
    +:+ text).

(** [Translator.simplify] *)
Definition simplify `{ChatModel} (text : string) : M Simplification :=
  response ← call_llm [simplify_system_message; simplify_human_message text];
  mret {| simplified := response; original := text |}.

End Translator.

(** ** The recursive character splitter behind [core/chunker.py]

    [Chunker] delegates the cutting to [RecursiveCharacterTextSplitter],
    which is not among the sources. This module is its model: break on the
    first separator of the priority list that occurs, merge the short
    pieces up to [chunk_size], carry up to [chunk_overlap] characters over,
    and hand a piece that is still too long to the finer separators. *)

Module TextSplitter.

(** [len(s)] *)
Definition len (s : string) : Z := Z.of_nat (String.length s).

(** [re.search(re.escape(sep), text)]: does [sep] occur in [text]? *)
Fixpoint occurs (sep text : string) : bool :=
  String.prefix sep text
  || match text with
     | EmptyString => false
     | String _ text' => occurs sep text'
     end.

(** [re.split] on the literal [sep], each separator kept at the head of
    the piece that follows it: the piece running up to the next match,
    and the pieces after it. [skip] characters of a match just found are
    still to be passed over. *)
Fixpoint split_keep_go (sep : string) (skip : nat) (text : string)
    : string * list string :=
  match text with
  | EmptyString => (EmptyString, [])
  | String c text' =>
      match skip with
      | S k =>
          let '(cur, rest) := split_keep_go sep k text' in
          (String c cur, rest)
      | O =>
          if String.prefix sep text
          then
            let '(cur, rest) := split_keep_go sep (String.length sep - 1) text' in
            (EmptyString, String c cur :: rest)
          else
            let '(cur, rest) := split_keep_go sep 0 text' in
            (String c cur, rest)
      end
  end.

(** [list(text)] *)
Fixpoint chars (text : string) : list string :=
  match text with
  | EmptyString => []
  | String c text' => String c EmptyString :: chars text'
  end.

(** Modelled from the spec: the boundary cut of the missing
    [RecursiveCharacterTextSplitter],
    [_split_text_with_regex(text, separator, keep_separator=True)]. *)
Definition split_text_with_regex (text sep : string) : list string :=
  let splits :=
    if truthy sep
    then let '(first, rest) := split_keep_go sep 0 text in first :: rest
    else chars text in
  filter (λ s, s ≠ EmptyString) splits.

(** [_join_docs], with [strip_whitespace=True]; [None] for an empty text. *)
Definition join_docs (docs : list string) (separator : string) : option string :=
  let text := strip (join separator docs) in
  if truthy text then Some text else None.

Section merge.
Variables (chunk_size chunk_overlap : Z) (separator : string).

Definition separator_len : Z := len separator.

(** The [while] loop of [_merge_splits], dropping pieces from the front
    of [current_doc]. With [0 <= chunk_overlap] and [total] the summed
    length of [current_doc], the condition is false on an empty
    [current_doc], where Python would fail on [current_doc[0]]. *)
Fixpoint pop_front (d_len : Z) (current_doc : list string) (total : Z)
    : list string * Z :=
  match current_doc with
  | [] => ([], total)
  | d :: rest =>
      if (total >? chunk_overlap)%Z
         || ((total + d_len + separator_len >? chunk_size)%Z && (total >? 0)%Z)
      then
        pop_front d_len rest
          (total - (len d + (if (1 <? length current_doc)%nat
                             then separator_len else 0)))%Z
      else (current_doc, total)
  end.

(** The state of the [for] loop of [_merge_splits]. *)
Record merge_state : Type := {
  docs : list string;
  current_doc : list string;
  total : Z;
}.

Definition append_doc (ds : list string) (doc : option string) : list string :=
  match doc with
  | Some t => ds ++ [t]
  | None => ds
  end.

(** One iteration of the [for] loop of [_merge_splits]. *)
Definition merge_step (st : merge_state) (d : string) : merge_state :=
  let d_len := len d in
  let sep_here := if (0 <? length (current_doc st))%nat
                  then separator_len else 0%Z in
  let st' :=
    if (total st + d_len + sep_here >? chunk_size)%Z
    then
      match current_doc st with
      | [] => st
      | _ =>
          let ds := append_doc (docs st) (join_docs (current_doc st) separator) in
          let '(cur, tot) := pop_front d_len (current_doc st) (total st) in
          {| docs := ds; current_doc := cur; total := tot |}
      end
    else st in
  let cur := current_doc st' ++ [d] in
  {| docs := docs st'; current_doc := cur;
     total := (total st' + d_len
               + (if (1 <? length cur)%nat then separator_len else 0))%Z |}.

(** Modelled from the spec: the merge with overlap of the missing
    [RecursiveCharacterTextSplitter], [_merge_splits(splits, separator)]. *)
Definition merge_splits (splits : list string) : list string :=
  let st := foldl merge_step {| docs := []; current_doc := []; total := 0 |} splits in
  append_doc (docs st) (join_docs (current_doc st) separator).

End merge.

Section split.
Variables (chunk_size chunk_overlap : Z).

(** The [for s in splits] loop of [_split_text]; [deeper] is what is done
    with a piece that is not shorter than [chunk_size]. With
    [keep_separator=True] the good pieces are merged with the empty
    separator. *)
Fixpoint split_loop (deeper : string → list string)
    (splits good_splits : list string) : list string :=
  match splits with
  | [] =>
      match good_splits with
      | [] => []
      | _ => merge_splits chunk_size chunk_overlap EmptyString good_splits
      end
  | s :: splits' =>
      if (len s <? chunk_size)%Z
      then split_loop deeper splits' (good_splits ++ [s])
      else
        match good_splits with
        | [] => []
        | _ => merge_splits chunk_size chunk_overlap EmptyString good_splits
        end
        ++ deeper s ++ split_loop deeper splits' []
  end.

(** Modelled from the spec: the recursion over increasingly granular
    boundaries of the missing [RecursiveCharacterTextSplitter],
    [_split_text(text, sep :: rest)]: the first separator of the list
    that occurs in [text] is the one split on, and the longer pieces go
    to the separators after it; past the last separator they are kept
    whole. *)
Fixpoint split_text_from (sep : string) (rest : list string) (text : string)
    : list string :=
  if negb (truthy sep)
  then split_loop (λ s, [s]) (split_text_with_regex text sep) []
  else
    match rest with
    | [] => split_loop (λ s, [s]) (split_text_with_regex text sep) []
    | sep' :: rest' =>
        if occurs sep text
        then split_loop (split_text_from sep' rest')
               (split_text_with_regex text sep) []
        else split_text_from sep' rest' text
    end.

(** Modelled from the spec: [split_text] of the missing
    [RecursiveCharacterTextSplitter]; an empty separator list stands for
    the library default. *)
Definition split_text (separators : list string) (text : string) : list string :=
  match separators with
  | sep :: rest => split_text_from sep rest text
  | [] =>
      split_text_from (nl +:+ nl) [nl; " "; ""] text
  end.

End split.

(** Modelled from the spec: the constructor of the missing
    [RecursiveCharacterTextSplitter]; the sizes are validated before
    anything is split. *)
Definition make (chunk_size chunk_overlap : Z) (separators : list string)
    : result (string → list string) :=
  if (chunk_size <=? 0)%Z
  then Raise (ValueError ("chunk_size must be > 0, got " +:+ pretty chunk_size))
  else if (chunk_overlap <? 0)%Z
  then Raise (ValueError ("chunk_overlap must be >= 0, got " +:+ pretty chunk_overlap))
  else if (chunk_overlap >? chunk_size)%Z
  then Raise (ValueError ("Got a larger chunk overlap (" +:+ pretty chunk_overlap
                +:+ ") than chunk size (" +:+ pretty chunk_size
                +:+ "), should be smaller."))
  else Ok (split_text chunk_size chunk_overlap separators).

End TextSplitter.

(** ** [core/chunker.py] *)

Module Chunker.

(** The splitter library, as the constructor of [Chunker] calls it:
    [RecursiveCharacterTextSplitter(chunk_size, chunk_overlap, separators,
    length_function=len)] gives the [split_text] of the new splitter. *)
Class SplitterLib : Type :=
  RecursiveCharacterTextSplitter :
    Z → Z → list string → result (string → list string).

Record ChunkMetadata : Type := {
  source : string;
  chunk_index : nat;
  total_chunks : nat;
  char_count : nat;
}.

Record Chunk : Type := {
  id : string;
  text : string;
  metadata : ChunkMetadata;
}.

Record t : Type := {
  chunk_size : Z;
  chunk_overlap : Z;
  chunks : list Chunk;
  splitter : string → list string;
}.

Definition separators : list string := [nl +:+ nl; nl; "."; "!"; "?"; " "].

(** [Chunker.__init__] *)
Definition init `{SplitterLib} (chunk_size chunk_overlap : Z) : result t :=
  sp ← RecursiveCharacterTextSplitter chunk_size chunk_overlap separators;
  Ok {| chunk_size := chunk_size; chunk_overlap := chunk_overlap;
        chunks := []; splitter := sp |}.

(** The dictionary built for [chunk_text] at position [index]. *)
Definition make_chunk (source_name : string) (raw_chunks : list string)
    (index : nat) (chunk_text : string) : Chunk :=
  {| id := source_name +:+ "_chunk_" +:+ pretty index;
     text := chunk_text;
     metadata := {| source := source_name;
                    chunk_index := index;
                    total_chunks := length raw_chunks;
                    char_count := String.length chunk_text |} |}.

(** [Chunker.split]: the chunker itself is returned, with its new chunks. *)
Definition split (self : t) (text source_name : string) : result t :=
  if negb (truthy text) || negb (truthy (strip text))
  then Raise (ValueError "Text is empty — nothing to chunk")
  else
    let raw_chunks := splitter self text in
    Ok {| chunk_size := chunk_size self; chunk_overlap := chunk_overlap self;
          chunks := imap (make_chunk source_name raw_chunks) raw_chunks;
          splitter := splitter self |}.

(** [Chunker.get_chunks] *)
Definition get_chunks (self : t) : list Chunk := chunks self.

(** [Chunker.get_chunk_count] *)
Definition get_chunk_count (self : t) : nat := length (chunks self).

(** The splitter of the model above, as the library. *)
Definition model_splitter : SplitterLib := TextSplitter.make.

End Chunker.

(** ** More of Python: the exceptions and string methods of the loaders *)

Module PyExt.

(** The exceptions of [core/pdf_loader.py] and [core/arxiv_client.py]:
    their own, those of a library they call, and the built-in ones above. *)
Inductive error : Type :=
| RuntimeError (msg : string)
| FileNotFoundError (msg : string)
| LibraryError (msg : string)
| Builtin (e : exn).

Inductive outcome (A : Type) : Type :=
| Return (a : A)
| Throw (e : error).
Global Arguments Return {A} a.
Global Arguments Throw {A} e.

Definition obind {A B} (r : outcome A) (k : A → outcome B) : outcome B :=
  match r with
  | Return a => k a
  | Throw e => Throw e
  end.

(** A call that raises a built-in exception. *)
Definition lift {A} (r : result A) : outcome A :=
  match r with
  | Ok a => Return a
  | Raise e => Throw (Builtin e)
  end.

(** [s.replace(old, new)] for an [old] that is not empty: the matches are
    taken from the left and do not overlap; [skip] characters of the match
    just replaced are still to be passed over. *)
Fixpoint replace_go (old new : string) (skip : nat) (s : string) : string :=
  match s with
  | EmptyString => EmptyString
  | String c s' =>
      match skip with
      | S k => replace_go old new k s'
      | O =>
          if String.prefix old s
          then new +:+ replace_go old new (String.length old - 1) s'
          else String c (replace_go old new 0 s')
      end
  end.

(** [s.replace("", new)] after the leading [new]: [new] follows every
    character. *)
Fixpoint interleave (new s : string) : string :=
  match s with
  | EmptyString => EmptyString
  | String c s' => String c (new +:+ interleave new s')
  end.

(** [s.replace(old, new)] *)
Definition replace (old new s : string) : string :=
  if truthy old then replace_go old new 0 s else new +:+ interleave new s.

(** [s.split(c)] for a separator of one character: never an empty list. *)
Fixpoint split_char (c : ascii) (s : string) : list string :=
  match s with
  | EmptyString => [EmptyString]
  | String a s' =>
      if bool_decide (a = c)
      then EmptyString :: split_char c s'
      else
        match split_char c s' with
        | piece :: pieces => String a piece :: pieces
        | [] => [String a EmptyString]
        end
  end.

(** [pieces[-1]], for the pieces of a split *)
Definition last_piece (pieces : list string) : string :=
  default EmptyString (last pieces).

(** [os.path.basename(path)] on POSIX: what follows the last slash. *)
Definition basename (path : string) : string :=
  last_piece (split_char "/"%char path).

(** [l[:n]] for an integer [n], which counts from the end when negative. *)
Definition slice_upto {A} (n : Z) (l : list A) : list A :=
  if (0 <=? n)%Z then take (Z.to_nat n) l
  else take (length l - Z.to_nat (- n)) l.

Fixpoint pow10 (n : nat) : positive :=
  match n with
  | O => 1%positive
  | S n' => (10 * pow10 n')%positive
  end.

(** [round(x, n)] for [0 <= n] *)
Definition round_n (n : nat) (x : Q) : Q :=
  (round_half_even (x * inject_Z (Zpos (pow10 n))) # pow10 n)%Q.

End PyExt.
Import PyExt.

#[global] Instance outcome_bind : MBind outcome := λ A B k r, obind r k.

(** ** The lists [core/chunker.py] hands to the embedder and the index *)

Module ChunkerLists.
Import Chunker.

(** [Chunker.get_texts_only] *)
Definition get_texts_only (self : t) : list string := text <$> chunks self.

(** [Chunker.get_metadatas_only] *)
Definition get_metadatas_only (self : t) : list ChunkMetadata :=
  metadata <$> chunks self.

(** [Chunker.get_ids_only] *)
Definition get_ids_only (self : t) : list string := id <$> chunks self.

(** The metadata of a chunk as the dictionary ChromaDB receives. *)
Definition metadata_dict (m : ChunkMetadata) : gmap string mvalue :=
  {[ "source" := MStr (source m);
     "chunk_index" := MInt (Z.of_nat (chunk_index m));
     "total_chunks" := MInt (Z.of_nat (total_chunks m));
     "char_count" := MInt (Z.of_nat (char_count m)) ]}.

End ChunkerLists.

(** ** [core/embedder.py] *)

Module Embedder.

(** [SentenceTransformer.encode(texts, convert_to_tensor=False)], each row
    already a plain list. *)
Class SentenceModel : Type := model_encode : list string → result (list (list Q)).

(** [Embedder.embed_texts]; the last message it prints reads the first
    embedding. *)
Definition embed_texts `{SentenceModel} (texts : list string)
    : result (list (list Q)) :=
  match texts with
  | [] => Raise (ValueError "No texts provided to embed")
  | _ =>
      embeddings_list ← model_encode texts;
      _ ← getitem embeddings_list 0;
      Ok embeddings_list
  end.

End Embedder.

(** ** The rest of [core/vector_store.py] and [core/retriever.py] *)

Module Indexing.

(** [collection.add(ids, embeddings, documents, metadatas)] inside the
    engine: the collection with the new items, or a refusal. *)
Class Adder : Type :=
  engine_add : Collection → list string → list (list Q) → list string
               → list (gmap string mvalue) → result Collection.

(** The items a valid [add] stores, in the order given. *)
Fixpoint new_items (ids : list string) (embeddings : list (list Q))
    (documents : list string) (metadatas : list (gmap string mvalue))
    : list Item :=
  match ids, embeddings, documents, metadatas with
  | i :: ids', e :: embeddings', d :: documents', m :: metadatas' =>
      {| item_id := i; item_embedding := e; item_document := d;
         item_metadata := m |}
      :: new_items ids' embeddings' documents' metadatas'
  | _, _, _, _ => []
  end.

(** What the callers rely on from [add]: parallel lists of fresh, distinct
    ids, of embeddings of the dimension of the collection and of metadata
    dictionaries that are not empty are appended; lists of different
    lengths are refused. *)
Class AdderLaws `{Adder} : Prop := {
  add_appends c ids embeddings documents metadatas dim :
    ids ≠ [] →
    length embeddings = length ids →
    length documents = length ids →
    length metadatas = length ids →
    NoDup ids →
    (∀ it, it ∈ col_items c → item_id it ∉ ids) →
    (0 < dim)%nat →
    (∀ e, e ∈ embeddings → length e = dim) →
    (∀ it, it ∈ col_items c → length (item_embedding it) = dim) →
    (∀ m, m ∈ metadatas → m ≠ ∅) →
    engine_add c ids embeddings documents metadatas
    = Ok {| col_metadata := col_metadata c;
            col_items := col_items c
                         ++ new_items ids embeddings documents metadatas |};
  add_refuses_unequal c ids embeddings documents metadatas :
    length embeddings ≠ length ids ∨ length documents ≠ length ids
    ∨ length metadatas ≠ length ids →
    ∃ e, engine_add c ids embeddings documents metadatas = Raise e;
}.

(** An adder that checks what the laws name and appends. *)
Definition checked_append : Adder := λ c ids embeddings documents metadatas,
  if negb ((length embeddings =? length ids)%nat
           && (length documents =? length ids)%nat
           && (length metadatas =? length ids)%nat)
  then Raise (ValueError "Unequal lengths for fields")
  else if bool_decide (ids = [])
  then Raise (ValueError "Expected IDs to be a non-empty list")
  else if negb (bool_decide (NoDup ids))
  then Raise (EngineError "Expected IDs to be unique")
  else if negb (forallb (λ it, negb (bool_decide (item_id it ∈ ids)))
                  (col_items c))
  then Raise (EngineError "Expected IDs to be new")
  else
    let dim := match col_items c, embeddings with
               | it :: _, _ => length (item_embedding it)
               | [], e :: _ => length e
               | [], [] => 0
               end in
    if negb (forallb (λ e, (length e =? dim)%nat) embeddings
             && forallb (λ it, (length (item_embedding it) =? dim)%nat)
                  (col_items c))
    then Raise (EngineError "Embedding dimension does not match collection dimensionality")
    else if (dim =? 0)%nat
    then Raise (ValueError "Expected each embedding to be a non-empty list")
    else if negb (forallb (λ m, negb (bool_decide (m = ∅))) metadatas)
    then Raise (ValueError "Expected metadata to be a non-empty dict")
    else Ok {| col_metadata := col_metadata c;
               col_items := col_items c
                            ++ new_items ids embeddings documents metadatas |}.

(** [collection.add(...)] through a handle. *)
Definition add `{Adder} (cl : Client) (handle : string) (ids : list string)
    (embeddings : list (list Q)) (documents : list string)
    (metadatas : list (gmap string mvalue)) : result Client :=
  match cl !! handle with
  | Some c =>
      c' ← engine_add c ids embeddings documents metadatas;
      Ok (<[handle := c']> cl)
  | None => Raise (ValueError ("Collection " +:+ handle +:+ " does not exist."))
  end.

(** [VectorStore.add_chunks]: the handle, or the exception of [add]; the
    client is the one left behind either way. *)
Definition add_chunks `{Adder} (cl : Client) (collection_name : string)
    (ids : list string) (embeddings : list (list Q)) (texts : list string)
    (metadatas : list (gmap string mvalue)) : result string * Client :=
  let '(cl', collection) := create_collection cl collection_name in
  match add cl' collection ids embeddings texts metadatas with
  | Ok cl'' => (Ok collection, cl'')
  | Raise e => (Raise e, cl')
  end.

(** What a search may return: the rows of a query are drawn from the items
    of the collection, each document with the metadata of its item. *)
Class EngineSound `{Engine} : Prop := {
  query_from_items c q k r ds ms :
    engine_query c q k = Ok r →
    documents r !! 0 = Some ds → metadatas r !! 0 = Some ms →
    Forall2 (λ d m, ∃ it, it ∈ col_items c ∧ item_document it = d
                          ∧ item_metadata it = m) ds ms;
}.

(** [Retriever.set_n_results] *)
Definition set_n_results (self : Retriever.t) (n : Z) : Retriever.t :=
  {| Retriever.collection_name := Retriever.collection_name self;
     Retriever.n_results := n |}.

(** [Retriever.set_collection] *)
Definition set_collection (self : Retriever.t) (collection_name : string)
    : Retriever.t :=
  {| Retriever.collection_name := collection_name;
     Retriever.n_results := Retriever.n_results self |}.

End Indexing.

(** ** [core/pdf_loader.py] *)

Module PDFLoader.

(** An opened PDF, as PyMuPDF shows it: the metadata dictionary and the
    text of each page ([page.get_text("text")]). *)
Record Document : Type := {
  doc_metadata : gmap string string;
  doc_pages : list string;
}.

(** The disk and the PDF library: [os.path.exists], [os.path.getsize] and
    [fitz.open]. *)
Class Disk : Type := {
  path_exists : string → bool;
  path_getsize : string → Z;
  fitz_open : string → outcome Document;
}.

(** The dictionary [_extract_metadata] builds. *)
Record FileMetadata : Type := {
  title : string;
  author : string;
  page_count : nat;
  file_name : string;
  file_size_kb : Q;
}.

(** The loader; [metadata] is [None] for the empty dictionary. *)
Record t : Type := {
  file_path : string;
  document : option Document;
  raw_text : string;
  clean_text : string;
  metadata : option FileMetadata;
}.

(** [PDFLoader.__init__] *)
Definition init (file_path : string) : t :=
  {| file_path := file_path; document := None; raw_text := EmptyString;
     clean_text := EmptyString; metadata := None |}.

(** [PDFLoader._extract_metadata] *)
Definition extract_metadata `{Disk} (self : t) (doc : Document) : FileMetadata :=
  {| title := default "Unknown Title" (doc_metadata doc !! "title");
     author := default "Unknown Author" (doc_metadata doc !! "author");
     page_count := length (doc_pages doc);
     file_name := basename (file_path self);
     file_size_kb := round_n 2 (inject_Z (path_getsize (file_path self)) / 1024) |}.

(** [PDFLoader.load] *)
Definition load `{Disk} (self : t) : outcome t :=
  if negb (path_exists (file_path self))
  then Throw (FileNotFoundError ("PDF not found at: " +:+ file_path self))
  else
    doc ← fitz_open (file_path self);
    Return {| file_path := file_path self; document := Some doc;
              raw_text := raw_text self; clean_text := clean_text self;
              metadata := Some (extract_metadata self doc) |}.

(** The block of one page that is not blank. *)
Definition page_block (page_number : nat) (text : string) : string :=
  nl +:+ "--- PAGE " +:+ pretty (page_number + 1) +:+ " ---" +:+ nl +:+ text.

(** The loop of [extract_text], from page [page_number]. *)
Fixpoint pages_text (page_number : nat) (pages : list string) : list string :=
  match pages with
  | [] => []
  | text :: pages' =>
      if truthy (strip text)
      then page_block page_number text :: pages_text (S page_number) pages'
      else pages_text (S page_number) pages'
  end.

(** [PDFLoader.extract_text] *)
Definition extract_text (self : t) : outcome t :=
  match document self with
  | None => Throw (RuntimeError "Call load() before extract_text()")
  | Some doc =>
      Return {| file_path := file_path self; document := document self;
                raw_text := join nl (pages_text 0 (doc_pages doc));
                clean_text := clean_text self; metadata := metadata self |}
  end.

Definition line_feed : ascii := ascii_of_nat 10.

Fixpoint line_feeds (n : nat) : string :=
  match n with
  | O => EmptyString
  | S n' => String line_feed (line_feeds n')
  end.

(** [re.sub(r'\n{3,}', '\n\n', text)]: a run of three line feeds or more
    becomes two; [run] line feeds have just been read. *)
Fixpoint squeeze_line_feeds (run : nat) (s : string) : string :=
  match s with
  | EmptyString => line_feeds (if 3 <=? run then 2 else run)
  | String c s' =>
      if bool_decide (c = line_feed)
      then squeeze_line_feeds (S run) s'
      else line_feeds (if 3 <=? run then 2 else run)
           +:+ String c (squeeze_line_feeds 0 s')
  end.

(** [re.sub(r'-\n', '', text)] *)
Fixpoint drop_hyphen_breaks (s : string) : string :=
  match s with
  | EmptyString => EmptyString
  | String c s' =>
      if bool_decide (c = "-"%char)
      then
        match s' with
        | String c' s'' =>
            if bool_decide (c' = line_feed)
            then drop_hyphen_breaks s''
            else String c (drop_hyphen_breaks s')
        | EmptyString => String c EmptyString
        end
      else String c (drop_hyphen_breaks s')
  end.

(** [[.!?]] *)
Definition ends_sentence (c : ascii) : bool :=
  bool_decide (c = "."%char) || bool_decide (c = "!"%char)
  || bool_decide (c = "?"%char).

(** [[a-z]] *)
Definition is_lower (c : ascii) : bool :=
  (97 <=? nat_of_ascii c) && (nat_of_ascii c <=? 122).

(** [re.sub(r'(?<![.!?])\n(?=[a-z])', ' ', text)]; [prev] is the character
    before [s] in the text, if any. *)
Fixpoint join_broken_lines (prev : option ascii) (s : string) : string :=
  match s with
  | EmptyString => EmptyString
  | String c s' =>
      let joins :=
        bool_decide (c = line_feed)
        && negb (from_option ends_sentence false prev)
        && match s' with
           | String c' _ => is_lower c'
           | EmptyString => false
           end in
      String (if joins then " "%char else c) (join_broken_lines (Some c) s')
  end.

(** [text.encode('utf-8', errors='ignore').decode('utf-8')]: only lone
    surrogates are dropped, and a code point below 256 is none. *)
Definition utf8_round_trip (s : string) : string := s.

(** The five steps of [clean] on the raw text. *)
Definition clean_steps (raw : string) : string :=
  let text := squeeze_line_feeds 0 raw in
  let text := drop_hyphen_breaks text in
  let text := join_broken_lines None text in
  let text := utf8_round_trip text in
  strip text.

(** [PDFLoader.clean] *)
Definition clean (self : t) : outcome t :=
  if negb (truthy (raw_text self))
  then Throw (RuntimeError "Call extract_text() before clean()")
  else
    Return {| file_path := file_path self; document := document self;
              raw_text := raw_text self;
              clean_text := clean_steps (raw_text self);
              metadata := metadata self |}.

(** [PDFLoader.get_text] *)
Definition get_text (self : t) : string := clean_text self.

(** [PDFLoader.get_page_count] *)
Definition get_page_count (self : t) : nat :=
  match metadata self with
  | Some m => page_count m
  | None => 0
  end.

End PDFLoader.

(** ** [core/arxiv_client.py] *)

Module ArxivClient.
Import Embedder.

(** One result of the arXiv library; [published_ymd] is
    [published.strftime("%Y-%m-%d")]. *)
Record Paper : Type := {
  paper_title : string;
  paper_authors : list string;
  paper_summary : string;
  published_ymd : string;
  entry_id : string;
  paper_pdf_url : string;
  paper_categories : list string;
}.

(** [client.results(arxiv.Search(query, max_results, Relevance))] *)
Class ArxivApi : Type := arxiv_results : string → Z → outcome (list Paper).

(** The dictionary [search] builds for a paper. *)
Record PaperDict : Type := {
  title : string;
  authors : string;
  abstract : string;
  published : string;
  arxiv_id : string;
  pdf_url : string;
  categories : string;
  paper_obj : Paper;
}.

Definition paper_dict (paper : Paper) : PaperDict :=
  {| title := paper_title paper;
     authors := join ", " (take 3 (paper_authors paper))
                +:+ (if 3 <? length (paper_authors paper) then " et al."
                     else EmptyString);
     abstract := paper_summary paper;
     published := published_ymd paper;
     arxiv_id := last_piece (split_char "/"%char (entry_id paper));
     pdf_url := paper_pdf_url paper;
     categories := join ", " (take 2 (paper_categories paper));
     paper_obj := paper |}.

(** [ArxivClient.search] *)
Definition search `{ArxivApi} (query : string) (max_results : Z)
    : outcome (list PaperDict) :=
  obind (arxiv_results query max_results)
    (λ papers : list Paper, Return (paper_dict <$> papers)).

(** The file name [download_pdf] saves a paper under. *)
Definition pdf_filename (paper_dict : PaperDict) : string :=
  replace "/" "_" (arxiv_id paper_dict) +:+ ".pdf".

(** [ArxivClient.extract_keywords] *)
Definition extract_keywords (text : string) : string :=
  let snippet := slice_to 500 text in
  let snippet := replace "--- PAGE 1 ---" EmptyString snippet in
  let snippet := replace "--- PAGE 2 ---" EmptyString snippet in
  let lines := strip <$> filter (λ l, truthy (strip l) = true)
                           (split_char (ascii_of_nat 10) snippet) in
  let keywords := join " " (take 3 lines) in
  slice_to 150 keywords.

(** [sklearn.metrics.pairwise.cosine_similarity(x, ys)[0]] *)
Class Similarity : Type :=
  cosine_similarity : list Q → list (list Q) → outcome (list Q).

(** [np.argsort(values)] *)
Class ArgSort : Type := argsort : list Q → list nat.

(** What the ranking relies on: one score for each candidate, and indices
    that are a permutation putting the scores in ascending order. *)
Class RankingLaws `{Similarity, ArgSort} : Prop := {
  similarity_length x ys sims :
    cosine_similarity x ys = Return sims → length sims = length ys;
  argsort_permutation xs : argsort xs ≡ₚ seq 0 (length xs);
  argsort_ascending xs :
    Sorted Qle ((λ i, default 0%Q (xs !! i)) <$> argsort xs);
}.

(** The client; [has_embedder] tells whether an [Embedder] was given. *)
Record t : Type := {
  has_embedder : bool;
}.

(** A candidate with its two scores. *)
Record Recommendation : Type := {
  candidate : PaperDict;
  similarity_score : Q;
  similarity_pct : Q;
}.

(** The body of the loop over the ranked indices. *)
Definition recommend (candidates : list PaperDict) (similarities : list Q)
    (idx : nat) : result Recommendation :=
  c ← getitem candidates idx;
  s ← getitem similarities idx;
  Ok {| candidate := c; similarity_score := round4 s;
        similarity_pct := round_n 1 (s * 100) |}.

Fixpoint recommend_all (candidates : list PaperDict) (similarities : list Q)
    (indices : list nat) : result (list Recommendation) :=
  match indices with
  | [] => Ok []
  | idx :: indices' =>
      r ← recommend candidates similarities idx;
      rs ← recommend_all candidates similarities indices';
      Ok (r :: rs)
  end.

(** [ArxivClient.get_recommendations]; the message printed at the end
    reads the first recommendation. *)
Definition get_recommendations
    `{ArxivApi, World.Embedder, SentenceModel, Similarity, ArgSort}
    (self : t) (uploaded_paper_text query_keywords : string)
    (top_n candidate_pool : Z) : outcome (list Recommendation) :=
  if negb (has_embedder self)
  then Throw (RuntimeError "Embedder required for recommendations")
  else
    candidates ← search query_keywords candidate_pool;
    match candidates with
    | [] => Return []
    | _ =>
        let paper_snippet := slice_to 2000 uploaded_paper_text in
        paper_embedding ← lift (embed_single paper_snippet);
        let abstracts := abstract <$> candidates in
        candidate_embeddings ← lift (embed_texts abstracts);
        similarities ← (cosine_similarity paper_embedding candidate_embeddings
                        : outcome (list Q));
        let ranked_indices := reverse (argsort similarities) in
        recommendations ←
          lift (recommend_all candidates similarities
                  (slice_upto top_n ranked_indices));
        _ ← lift (getitem recommendations 0);
        Return recommendations
    end.

(** A ranking to run the definitions on: the exact order of the scores,
    and the inner product as the similarity of unit vectors. *)
Fixpoint insert_index (xs : list Q) (i : nat) (l : list nat) : list nat :=
  match l with
  | [] => [i]
  | j :: l' =>
      if Qle_bool (default 0%Q (xs !! i)) (default 0%Q (xs !! j))
      then i :: l
      else j :: insert_index xs i l'
  end.

Definition exact_argsort : ArgSort := λ xs,
  foldr (insert_index xs) [] (seq 0 (length xs)).

Definition unit_similarity : Similarity := λ x ys, Return (dot x <$> ys).

End ArxivClient.

(** ** The vocabulary of the properties *)

Module Spec.
Import TextSplitter.

(** A text that is empty or all whitespace. *)
Definition blank (s : string) : Prop :=
  Forall (λ c, is_space c = true) (list_ascii_of_string s).

(** The two failures of [translate]; both are a [ValueError] in the
    source, told apart by their message. *)
Definition InvalidInput : exn := ValueError "Text to translate cannot be empty".

Definition UnsupportedLanguage : exn :=
  ValueError "Language not supported. Choose from: Hindi, Gujarati, Spanish, French, German, Chinese, Japanese, Arabic, Portuguese, Italian, Korean, Russian, Dutch, Turkish, Bengali".

(** The mean of a list of scores, as the specification words it. *)
Definition mean (xs : list Q) : Q :=
  (sum xs / inject_Z (Z.of_nat (length xs)))%Q.



(** The characters of a string, and those after its first. *)
Definition chars_of (s : string) : list ascii := list_ascii_of_string s.

Definition inner (s : string) : list ascii :=
  match s with
  | EmptyString => []
  | String _ s' => chars_of s'
  end.

(** A string after its first character. *)
Definition string_tail (s : string) : string :=
  match s with
  | EmptyString => EmptyString
  | String _ s' => s'
  end.

(** The separator made of one character. *)
Definition single (c : ascii) : string := String c EmptyString.

(** The characters that are separators on their own. *)
Definition boundary_chars : list ascii :=
  [ascii_of_nat 10; "."%char; "!"%char; "?"%char; " "%char].

(** A token with no boundary to cut it at: none of the separators occurs
    in it after its first character. *)
Definition atomic (s : string) : Prop :=
  ∀ sep, sep ∈ Chunker.separators → occurs sep (string_tail s) = false.

(** None of the characters [D] stands in [p] after its first character. *)
Definition free_of (D : list ascii) (p : string) : Prop :=
  ∀ d, d ∈ D → d ∉ inner p.

(** A chunk is as it should be when it fits in [chunk_size], or else has
    property [Q]. *)
Definition fits_or (chunk_size : Z) (Q : string → Prop) (p : string) : Prop :=
  (len p ≤ chunk_size)%Z ∨ Q p.

(** The summed length of the pieces of a document. *)
Definition total_len (l : list string) : Z := foldr (λ s a, len s + a)%Z 0%Z l.

(** The invariant of the [for] loop of [_merge_splits]: [total] is the
    summed length of [current_doc], which fits in [chunk_size], as do the
    documents made so far. *)
Definition merge_inv (chunk_size : Z) (st : merge_state) : Prop :=
  total st = total_len (current_doc st)
  ∧ ((total st ≤ chunk_size)%Z ∨ current_doc st = [])
  ∧ Forall (λ t, len t ≤ chunk_size)%Z (docs st).

(** A decimal digit. *)
Definition is_digit (c : ascii) : bool :=
  (48 <=? nat_of_ascii c) && (nat_of_ascii c <=? 57).

(** [s] starts with [p]. *)
Definition starts_with (p s : string) : Prop := ∃ rest, s = p +:+ rest.

(** The marker of page [n] without the dash and the line feed that close
    it. *)
Definition kept_marker (n : nat) : string := "--- PAGE " +:+ pretty n +:+ " --".

End Spec.

(** ** A small index and stub ports, to run the definitions on *)

Module Examples.

Definition item (name : string) (embedding : list Q) (document : string) : Item :=
  {| item_id := name +:+ "_chunk_0"; item_embedding := embedding;
     item_document := document;
     item_metadata := {[ "source" := MStr name ]} |}.

Definition empty_collection : Collection :=
  {| col_metadata := cosine_space; col_items := [] |}.

(** Three unit vectors around the query direction [[1; 0]]. *)
Definition papers : Client :=
  {[ "research_papers" :=
       {| col_metadata := cosine_space;
          col_items := [ item "a" [3 # 5; 4 # 5] "attention";
                         item "b" [4 # 5; 3 # 5] "encoder";
                         item "c" [3 # 5; -4 # 5] "decoder" ] |} ]}.

(** One unit vector, seen from the direction [[3/5; 4/5]]. *)
Definition one_paper : Client :=
  {[ "research_papers" :=
       {| col_metadata := cosine_space;
          col_items := [ item "a" [5 # 13; 12 # 13] "attention" ] |} ]}.

(** Two unit vectors away from the query direction [[1; 0]]. *)
Definition unrelated : Client :=
  {[ "research_papers" :=
       {| col_metadata := cosine_space;
          col_items := [ item "cake" [0; 1]%Q "chocolate";
                         item "pie" [-3 # 5; 4 # 5]%Q "apple" ] |} ]}.

Definition retriever : Retriever.t :=
  {| Retriever.collection_name := "research_papers"; Retriever.n_results := 5 |}.

(** A passage of 232 characters. *)
Definition passage : string :=
  "The Transformer model architecture relies entirely on attention mechanisms, dispensing with recurrence and convolutions entirely. This allows for significantly more parallelization during training and reaches a new state of the art.".

Definition east_embedder : Embedder := λ _, Ok [1; 0]%Q.
Definition echo_model : ChatModel := λ _, Ok "generated".
Definition fraction_repr : FloatRepr := λ q,
  pretty (Qnum q) +:+ "/" +:+ pretty (Zpos (Qden q)).

Definition fresh (cl : Client) : world :=
  {| store := cl; embed_calls := []; llm_calls := [] |}.

(** A retrieved chunk of the given similarity. *)
Definition scored (similarity : Q) : ScoredChunk :=
  {| text := "chunk"; metadata := ∅; distance := 1 - similarity;
     similarity := similarity |}.

(** A chunker of small chunks and a text of two sentences. *)
Definition small_chunker : Chunker.t :=
  {| Chunker.chunk_size := 40; Chunker.chunk_overlap := 10;
     Chunker.chunks := [];
     Chunker.splitter := TextSplitter.split_text 40 10 Chunker.separators |}.

Definition two_sentences : string :=
  "Attention is all you need. The encoder maps an input sequence.".

(** A sentence model that tells a text by its length only. *)
Definition length_model : Embedder.SentenceModel := λ texts,
  Ok ((λ t, [inject_Z (Z.of_nat (String.length t)); 1%Q]) <$> texts).

(** A loader that has opened a document of the given pages. *)
Definition opened (pages : list string) : PDFLoader.t :=
  {| PDFLoader.file_path := "paper.pdf";
     PDFLoader.document :=
       Some {| PDFLoader.doc_metadata := ∅; PDFLoader.doc_pages := pages |};
     PDFLoader.raw_text := EmptyString; PDFLoader.clean_text := EmptyString;
     PDFLoader.metadata := None |}.

(** Three papers, and a library that answers every query with them. *)
Definition transformer_paper : ArxivClient.Paper :=
  {| ArxivClient.paper_title := "Attention Is All You Need";
     ArxivClient.paper_authors :=
       ["Ashish Vaswani"; "Noam Shazeer"; "Niki Parmar"; "Jakob Uszkoreit"];
     ArxivClient.paper_summary :=
       "The dominant sequence transduction models are based on recurrent networks.";
     ArxivClient.published_ymd := "2017-06-12";
     ArxivClient.entry_id := "http://arxiv.org/abs/1706.03762v7";
     ArxivClient.paper_pdf_url := "https://arxiv.org/pdf/1706.03762v7";
     ArxivClient.paper_categories := ["cs.CL"; "cs.LG"] |}.

Definition bert_paper : ArxivClient.Paper :=
  {| ArxivClient.paper_title := "BERT";
     ArxivClient.paper_authors := ["Jacob Devlin"; "Ming-Wei Chang"];
     ArxivClient.paper_summary :=
       "We introduce a new language representation model called BERT, short for bidirectional encoder.";
     ArxivClient.published_ymd := "2018-10-11";
     ArxivClient.entry_id := "http://arxiv.org/abs/1810.04805v2";
     ArxivClient.paper_pdf_url := "https://arxiv.org/pdf/1810.04805v2";
     ArxivClient.paper_categories := ["cs.CL"] |}.

Definition strings_paper : ArxivClient.Paper :=
  {| ArxivClient.paper_title := "Large N field theories";
     ArxivClient.paper_authors := ["O. Aharony"];
     ArxivClient.paper_summary := "We review the holographic correspondence.";
     ArxivClient.published_ymd := "1999-05-14";
     ArxivClient.entry_id := "http://arxiv.org/abs/hep-th/9905111v3";
     ArxivClient.paper_pdf_url := "https://arxiv.org/pdf/hep-th/9905111v3";
     ArxivClient.paper_categories := ["hep-th"] |}.

Definition library : ArxivClient.ArxivApi := λ _ _,
  Return [transformer_paper; bert_paper; strings_paper].

End Examples.

(** * Properties *)

(** ** Python values *)

Module PyFacts.

Lemma rstrip_all_space s :
  rstrip s = EmptyString ↔ Forall (λ c, is_space c = true) (list_ascii_of_string s).
Proof.
  induction s as [|c s IH]; simpl.
  - split; [constructor | done].
  - destruct (rstrip s) eqn:Hr.
    + destruct (is_space c) eqn:Hc.
      * split; [|done]. intros _. constructor; [done|]. by apply IH.
      * split; [done|]. intros H. inversion H; congruence.
    + split; [done|]. intros H. inversion H as [|?? _ Hs]; subst.
      apply IH in Hs. done.
Qed.

Lemma lstrip_all_space s :
  Forall (λ c, is_space c = true) (list_ascii_of_string (lstrip s))
  ↔ Forall (λ c, is_space c = true) (list_ascii_of_string s).
Proof.
  induction s as [|c s IH]; simpl; [done|].
  destruct (is_space c) eqn:Hc.
  - rewrite IH. split; [by constructor|]. by inversion 1.
  - done.
Qed.

(** [s.strip()] is empty exactly when [s] is empty or all whitespace. *)
Lemma strip_empty s :
  strip s = EmptyString ↔ Forall (λ c, is_space c = true) (list_ascii_of_string s).
Proof. unfold strip. by rewrite rstrip_all_space, lstrip_all_space. Qed.

Lemma truthy_false s : truthy s = false ↔ s = EmptyString.
Proof. by destruct s. Qed.

Lemma truthy_strip s :
  truthy (strip s) = false
  ↔ Forall (λ c, is_space c = true) (list_ascii_of_string s).
Proof. by rewrite truthy_false, strip_empty. Qed.


Lemma lt_spec x y : lt x y = true ↔ (x < y)%Q.
Proof.
  unfold lt. rewrite negb_true_iff. split.
  - intros H. apply Qnot_le_lt. intros Hle. apply Qle_bool_iff in Hle. congruence.
  - intros H. destruct (Qle_bool y x) eqn:E; [|done].
    apply Qle_bool_iff in E. by apply Qlt_not_le in H.
Qed.


End PyFacts.

(** ** The index *)

Module VectorStoreFacts.

Lemma create_collection_existing (cl : Client) name c :
  cl !! name = Some c → create_collection cl name = (cl, name).
Proof.
  intros H. unfold create_collection, get_or_create_collection. by rewrite H.
Qed.

Lemma create_collection_lookup (cl : Client) name :
  is_Some ((create_collection cl name).1 !! name).
Proof.
  unfold create_collection, get_or_create_collection.
  destruct (cl !! name) eqn:E; simpl.
  - by rewrite E.
  - by rewrite lookup_insert_eq.
Qed.

Lemma create_collection_handle (cl : Client) name :
  (create_collection cl name).2 = name.
Proof.
  unfold create_collection, get_or_create_collection.
  by destruct (cl !! name).
Qed.

Lemma create_collection_twice (cl : Client) name :
  create_collection (create_collection cl name).1 name
  = create_collection cl name.
Proof.
  destruct (create_collection_lookup cl name) as [c Hc].
  rewrite (create_collection_existing _ _ _ Hc).
  destruct (create_collection cl name) as [cl1 h] eqn:E. simpl.
  pose proof (create_collection_handle cl name) as Hh.
  rewrite E in Hh. simpl in Hh. by subst.
Qed.

Lemma Sorted_take {A} (R : A → A → Prop) n (l : list A) :
  Sorted R l → Sorted R (take n l).
Proof.
  intros H. revert n. induction H as [|a l Hl IH Hd]; intros [|n]; simpl;
    try constructor.
  - apply IH.
  - destruct Hd; destruct n; simpl; by constructor.
Qed.

Lemma Sorted_drop {A} (R : A → A → Prop) n (l : list A) :
  Sorted R l → Sorted R (drop n l).
Proof.
  revert l. induction n as [|n IH]; intros l H; [by rewrite drop_0|].
  destruct l as [|a l]; [done|]. simpl. apply IH. by inversion H.
Qed.

Section rows.
Context (r : QueryResult) (ds : list string)
  (ms : list (gmap string mvalue)) (xs : list Q).
Hypothesis Hds : documents r = [ds].
Hypothesis Hms : metadatas r = [ms].
Hypothesis Hxs : distances r = [xs].

Lemma search_row_inv i c :
  search_row r i = Ok c →
  ds !! i = Some (text c)
  ∧ xs !! i = Some (distance c) ∧ similarity c = round4 (1 - distance c).
Proof using Hds Hms Hxs.
  unfold search_row. rewrite Hds, Hms, Hxs. unfold getitem. simpl.
  destruct (ds !! i); simpl; [|done].
  destruct (ms !! i); simpl; [|done].
  destruct (xs !! i); simpl; [|done].
  intros [= <-]. done.
Qed.

Lemma search_row_ok i :
  i < length ds → length ms = length ds → length xs = length ds →
  ∃ c, search_row r i = Ok c.
Proof using Hds Hms Hxs.
  intros Hi Hm Hx.
  unfold search_row. rewrite Hds, Hms, Hxs. unfold getitem. simpl.
  destruct (lookup_lt_is_Some_2 ds i Hi) as [t ->].
  destruct (lookup_lt_is_Some_2 ms i ltac:(lia)) as [m ->].
  destruct (lookup_lt_is_Some_2 xs i ltac:(lia)) as [d ->].
  simpl. eauto.
Qed.

Lemma search_rows_inv n : ∀ i l,
  search_rows r i n = Ok l →
  length l = n
  ∧ text <$> l = take n (drop i ds)
  ∧ distance <$> l = take n (drop i xs)
  ∧ Forall (λ c, similarity c = round4 (1 - distance c)) l.
Proof using Hds Hms Hxs.
  induction n as [|n IH]; intros i l; simpl.
  - intros [= <-]. by rewrite !take_0.
  - destruct (search_row r i) as [c|] eqn:Hc; simpl; [|done].
    destruct (search_rows r (S i) n) as [cs|] eqn:Hcs; simpl; [|done].
    intros [= <-]. destruct (IH _ _ Hcs) as (Hlen & Ht & Hd & Hsim).
    destruct (search_row_inv _ _ Hc) as (Hdoc & Hx & Hs).
    split; [simpl; by rewrite Hlen|].
    split; [rewrite fmap_cons, Ht; by rewrite (drop_S _ _ _ Hdoc)|].
    split; [|by constructor].
    rewrite fmap_cons, Hd.
    rewrite (drop_S _ _ _ Hx). done.
Qed.

Lemma search_rows_ok n : ∀ i,
  i + n ≤ length ds → length ms = length ds → length xs = length ds →
  ∃ l, search_rows r i n = Ok l.
Proof using Hds Hms Hxs.
  induction n as [|n IH]; intros i Hi Hm Hx; simpl; [eauto|].
  destruct (search_row_ok i ltac:(lia) Hm Hx) as [c ->]. simpl.
  destruct (IH (S i) ltac:(lia) Hm Hx) as [l ->]. simpl. eauto.
Qed.
End rows.

(** A search leaves behind a client on which the same search gives the
    same answer and changes nothing more. *)
Lemma search_again `{Engine} (cl cl' : Client) name q k res :
  search cl name q k = (res, cl') → search cl' name q k = (res, cl').
Proof.
  unfold search.
  pose proof (create_collection_twice cl name) as Htwice.
  destruct (create_collection cl name) as [cl1 h] eqn:E. simpl in Htwice.
  intros [= <- <-]. rewrite Htwice. done.
Qed.

(** The exact engine keeps the laws. *)
Lemma insert_ranked_sorted x l :
  Sorted Qle (fst <$> l) → Sorted Qle (fst <$> insert_ranked x l).
Proof.
  induction l as [|y l IH]; simpl; intros H.
  - repeat constructor.
  - destruct (Qle_bool x.1 y.1) eqn:E.
    + simpl. constructor; [done|]. constructor. by apply Qle_bool_iff.
    + simpl. inversion H as [|?? Hs Hd]; subst.
      constructor; [by apply IH|].
      assert (y.1 <= x.1)%Q as Hyx.
      { apply Qlt_le_weak, Qnot_le_lt. intros Hle.
        apply Qle_bool_iff in Hle. congruence. }
      destruct l as [|z l]; simpl.
      * by constructor.
      * destruct (Qle_bool x.1 z.1); simpl; constructor; [done|].
        by inversion Hd.
Qed.

Lemma rank_sorted q items : Sorted Qle (fst <$> rank q items).
Proof.
  unfold rank. induction items as [|it items IH]; simpl; [constructor|].
  by apply insert_ranked_sorted.
Qed.

#[global] Instance exact_engine_laws : @EngineLaws exact_engine.
Proof.
  split; unfold engine_query, exact_engine.
  - intros c q k r. destruct (k <=? 0)%Z; [done|]. intros [= <-]. simpl.
    eexists _, _, _. repeat split; by rewrite !length_fmap.
  - intros c q k r ds. destruct (k <=? 0)%Z eqn:Hk; [done|].
    intros [= <-]. simpl. intros [= <-].
    rewrite length_fmap, length_take. lia.
  - intros c q k r xs. destruct (k <=? 0)%Z eqn:Hk; [done|].
    intros [= <-]. simpl. intros [= <-].
    rewrite fmap_take. apply Sorted_take, rank_sorted.
  - intros c q k Hc Hk. destruct (k <=? 0)%Z eqn:E; [lia|].
    rewrite Hc. cbn [rank fmap list_fmap foldr]. by rewrite firstn_nil.
Qed.

(** C9. [create_collection] is idempotent. On a name the client holds
    it is a no-op: the client is returned as it was, the collection keeps
    its items, the handle returned is usable and counts what the
    collection held. On a name the client does not hold, the collection is
    created, empty, under the cosine metric. Either way no other
    collection is touched, and a second call with the same name changes
    nothing in the client, returns the handle of the first call, and the
    count is what it was. *)
Theorem create_collection_idempotent (cl : Client) (name : string) :
  let first := create_collection cl name in
  let second := create_collection first.1 name in
  second.1 = first.1
  ∧ second.2 = first.2
  ∧ (∃ n, count second.1 second.2 = Ok n ∧ count first.1 first.2 = Ok n)
  ∧ get_collection_count second.1 name = get_collection_count first.1 name
  ∧ (∀ c, cl !! name = Some c →
       first = (cl, name)
       ∧ first.1 !! name = Some c
       ∧ count first.1 first.2 = Ok (Z.of_nat (length (col_items c)))
       ∧ count first.1 first.2 = count cl name
       ∧ get_collection_count first.1 name = get_collection_count cl name)
  ∧ (cl !! name = None →
       first.2 = name
       ∧ first.1 !! name
         = Some {| col_metadata := cosine_space; col_items := [] |}
       ∧ count first.1 first.2 = Ok 0%Z)
  ∧ (∀ other, other ≠ name → first.1 !! other = cl !! other).
Proof.
  intros first second. unfold second, first.
  rewrite create_collection_twice.
  split; [done|]. split; [done|]. split.
  { destruct (create_collection_lookup cl name) as [c Hc].
    rewrite create_collection_handle. unfold count. rewrite Hc. eauto. }
  split; [done|]. split; [|split].
  - intros c Hc. rewrite (create_collection_existing _ _ _ Hc). simpl.
    unfold get_collection_count, count. by rewrite Hc.
  - intros Hnone. unfold create_collection, get_or_create_collection.
    rewrite Hnone. simpl. unfold count. by rewrite lookup_insert_eq.
  - intros other Hother. unfold create_collection, get_or_create_collection.
    destruct (cl !! name); simpl; [done|]. by rewrite lookup_insert_ne.
Qed.

(** C10. For a name that was never created, [get_collection_count] is 0
    and [collection_exists] is False; both are total functions, so neither
    raises; and [collection_exists] is True exactly when the collection
    is there and holds at least one vector. *)
Theorem count_and_exists_of_collection (cl : Client) (name : string) :
  (cl !! name = None →
     get_collection_count cl name = 0%Z ∧ collection_exists cl name = false)
  ∧ (collection_exists cl name = true
     ↔ ∃ c, cl !! name = Some c ∧ 1 ≤ length (col_items c))
  ∧ (∀ c, cl !! name = Some c →
       get_collection_count cl name = Z.of_nat (length (col_items c))).
Proof.
  unfold get_collection_count, collection_exists, get_collection, count.
  destruct (cl !! name) as [c|] eqn:E; simpl; rewrite ?E; simpl.
  - split; [done|]. split.
    + split.
      * intros H. exists c. split; [done|]. lia.
      * intros (c' & [= <-] & H). lia.
    + by intros c' [= <-].
  - split; [done|]. split; [|done]. split; [done|]. by intros (c & ? & _).
Qed.

(** C2, amended. [search] never fails for want of the collection: on a
    name that was never created it creates the collection, empty, under
    the cosine metric, and returns the empty list, as it does on a
    collection that is there and empty. *)
Theorem search_without_vectors `{EngineLaws} (cl : Client) (name : string)
    (q : list Q) (k : Z) :
  (0 < k)%Z →
  (cl !! name = None ∨ ∃ c, cl !! name = Some c ∧ col_items c = []) →
  search cl name q k = (Ok [], (create_collection cl name).1)
  ∧ (cl !! name = None →
     (create_collection cl name).1
     = <[name := {| col_metadata := cosine_space; col_items := [] |}]> cl).
Proof.
  intros Hk Hcl. unfold search, create_collection, get_or_create_collection, query.
  destruct Hcl as [Hn | (c & Hc & Hi)].
  - rewrite Hn. simpl. rewrite lookup_insert_eq.
    rewrite query_empty by done. done.
  - rewrite Hc. simpl. rewrite Hc.
    rewrite query_empty by done. done.
Qed.

Lemma search_without_vectors_witness :
  search (H := exact_engine) ∅ "research_papers" [1; 0]%Q 5
  = (Ok [], (create_collection ∅ "research_papers").1)
  ∧ ((∅ : Client) !! "research_papers" = None →
     (create_collection ∅ "research_papers").1
     = <["research_papers" := Examples.empty_collection]> ∅).
Proof.
  apply (search_without_vectors (H := exact_engine) ∅ "research_papers" [1; 0]%Q 5).
  - lia.
  - left. reflexivity.
Defined.

(** C2, as stated, fails: a search in a collection that was never created
    raises nothing; it returns the empty list and leaves the collection
    behind. *)
Lemma search_never_created_returns :
  (∅ : Client) !! "research_papers" = None
  ∧ search (H := exact_engine) ∅ "research_papers" [1; 0]%Q 5
    = (Ok [], {[ "research_papers" := Examples.empty_collection ]}).
Proof. split; reflexivity. Qed.

(** C4, amended. Whatever [search] returns has at most [n_results]
    entries, in ascending order of distance, and the similarity of each
    entry is one minus its distance rounded to four decimals. *)
Theorem search_ranked `{EngineLaws} (cl cl' : Client) (name : string)
    (q : list Q) (k : Z) (chunks : list ScoredChunk) :
  search cl name q k = (Ok chunks, cl') →
  (Z.of_nat (length chunks) ≤ k)%Z
  ∧ Sorted Qle (distance <$> chunks)
  ∧ Forall (λ c, similarity c = round4 (1 - distance c)) chunks.
Proof.
  unfold search. destruct (create_collection cl name) as [cl1 h].
  unfold query. destruct (cl1 !! h) as [c|]; simpl; [|done].
  destruct (engine_query c q k) as [r|] eqn:Hq; simpl; [|done].
  destruct (query_one_row _ _ _ _ Hq) as (ds & ms & xs & Hd & Hm & Hx & Hlm & Hlx).
  rewrite Hd. simpl. intros [= Hrows <-].
  destruct (search_rows_inv r ds ms xs Hd Hm Hx _ _ _ Hrows)
    as (Hlen & _ & Hdist & Hsim).
  split; [rewrite Hlen; by eapply query_at_most|].
  split; [|done].
  rewrite Hdist, drop_0. apply Sorted_take. by eapply query_ascending.
Qed.

Lemma search_ranked_witness :
  ∃ chunks,
    search (H := exact_engine) Examples.papers "research_papers" [1; 0]%Q 2
    = (Ok chunks, Examples.papers)
    ∧ length chunks = 2
    ∧ (Z.of_nat (length chunks) ≤ 2)%Z
    ∧ Sorted Qle (distance <$> chunks)
    ∧ Forall (λ c, similarity c = round4 (1 - distance c)) chunks.
Proof.
  eexists. split; [vm_compute; reflexivity|]. split; [reflexivity|].
  apply (search_ranked (H := exact_engine) Examples.papers Examples.papers
           "research_papers" [1; 0]%Q 2).
  vm_compute. reflexivity.
Defined.

(** C4, as stated, fails: at distance 2/65 the similarity is 0.9692, not
    63/65. *)
Lemma search_similarity_is_rounded :
  ∃ c,
    search (H := exact_engine) Examples.one_paper "research_papers"
      [3 # 5; 4 # 5]%Q 5 = (Ok [c], Examples.one_paper)
    ∧ (distance c == 2 # 65)%Q
    ∧ (similarity c == 9692 # 10000)%Q
    ∧ ¬ (similarity c == 1 - distance c)%Q.
Proof.
  eexists. split; [vm_compute; reflexivity|]. simpl. repeat split. by intros H.
Qed.

(** X1. [delete_collection] never raises and is idempotent: after it the
    collection is gone, deleting it again changes nothing, the collection
    counts 0 vectors and does not exist with data, and every other
    collection is as it was. *)
Theorem delete_collection_idempotent (cl : Client) (name : string) :
  let cl' := VectorStore.delete_collection cl name in
  cl' !! name = None
  ∧ VectorStore.delete_collection cl' name = cl'
  ∧ collection_exists cl' name = false
  ∧ get_collection_count cl' name = 0%Z
  ∧ (∀ other, other ≠ name → cl' !! other = cl !! other).
Proof.
  intros cl'.
  assert (cl' !! name = None) as Hgone.
  { unfold cl', VectorStore.delete_collection, Chroma.delete_collection.
    destruct (cl !! name) eqn:E; [apply lookup_delete_eq|done]. }
  split; [done|]. split.
  { unfold VectorStore.delete_collection, Chroma.delete_collection.
    by rewrite Hgone. }
  split.
  { unfold collection_exists, get_collection. by rewrite Hgone. }
  split.
  { unfold get_collection_count, get_collection. by rewrite Hgone. }
  intros other Hne.
  unfold cl', VectorStore.delete_collection, Chroma.delete_collection.
  destruct (cl !! name) eqn:E; [by apply lookup_delete_ne|done].
Qed.

(** X2. Whenever the engine answers the query, [search] returns: the
    reformatting loop never runs past the rows, and it makes one entry for
    each row. *)
Theorem search_returns `{EngineLaws} (cl : Client) (name : string)
    (q : list Q) (k : Z) (r : QueryResult) :
  query (create_collection cl name).1 (create_collection cl name).2 q k = Ok r →
  ∃ chunks,
    search cl name q k = (Ok chunks, (create_collection cl name).1)
    ∧ text <$> chunks = mjoin (documents r).
Proof.
  unfold search. destruct (create_collection cl name) as [cl1 h]. simpl.
  intros Hq. rewrite Hq. simpl.
  assert (∃ c, engine_query c q k = Ok r) as [c Hc].
  { unfold query in Hq. destruct (cl1 !! h); [eauto|done]. }
  destruct (query_one_row _ _ _ _ Hc) as (ds & ms & xs & Hd & Hm & Hx & Hlm & Hlx).
  rewrite Hd. simpl.
  destruct (search_rows_ok r ds ms xs Hd Hm Hx (length ds) 0 ltac:(lia) Hlm Hlx)
    as [l Hl].
  rewrite Hl. exists l. split; [done|]. rewrite app_nil_r.
  destruct (search_rows_inv r ds ms xs Hd Hm Hx _ _ _ Hl) as (_ & Ht & _).
  rewrite Ht, drop_0. by apply take_ge.
Qed.

Lemma search_returns_witness :
  ∃ chunks,
    search (H := exact_engine) Examples.papers "research_papers" [1; 0]%Q 5
    = (Ok chunks, (create_collection Examples.papers "research_papers").1)
    ∧ text <$> chunks = mjoin [["encoder"; "attention"; "decoder"]].
Proof.
  eapply (search_returns (H := exact_engine) Examples.papers "research_papers"
            [1; 0]%Q 5
            {| documents := [["encoder"; "attention"; "decoder"]];
               metadatas := _; distances := _ |}).
  vm_compute. reflexivity.
Defined.

End VectorStoreFacts.

(** ** The retriever *)

Module RetrieverFacts.
Import Retriever VectorStoreFacts Spec.

Ltac unfold_M :=
  unfold mbind, M_bind, mret, M_ret, raise, call_embed, call_search, call_llm in *.

Section retrieve.
Context `{Engine, Embedder}.
Variables (self : Retriever.t) (query : string).

Lemma retrieve_inv w chunks w' :
  retrieve self query w = (Ok chunks, w') →
  truthy (strip query) = true
  ∧ (∃ e, embed_single query = Ok e
          ∧ search (store w) (collection_name self) e (n_results self)
            = (Ok chunks, store w'))
  ∧ embed_calls w' = embed_calls w ++ [query]
  ∧ llm_calls w' = llm_calls w.
Proof.
  unfold retrieve.
  destruct (truthy query) eqn:Hq; simpl; [|by unfold_M].
  destruct (truthy (strip query)) eqn:Hs; simpl; [|by unfold_M].
  unfold_M. destruct (embed_single query) as [e|]; [|done].
  destruct (search _ _ e _) as [res cl] eqn:Hsearch. simpl.
  intros [= -> <-]. simpl. eauto 10.
Qed.


Lemma retrieve_with_scores_inv w chunks avg w' :
  retrieve_with_scores self query w = (Ok (chunks, avg), w') →
  retrieve self query w = (Ok chunks, w')
  ∧ avg = match chunks with
          | [] => 0%Q
          | _ => round4 (avg_score chunks)
          end.
Proof.
  unfold retrieve_with_scores. unfold mbind, M_bind.
  destruct (retrieve self query w) as [[cs|e] w1]; [|done].
  destruct cs as [|c cs]; unfold mret, M_ret; by intros [= <- <- <-].
Qed.

Lemma retrieve_with_scores_raise w e w' :
  retrieve_with_scores self query w = (Raise e, w') ↔
  retrieve self query w = (Raise e, w').
Proof.
  unfold retrieve_with_scores. unfold mbind, M_bind.
  destruct (retrieve self query w) as [[cs|e'] w1];
    [|split; by intros [= -> ->]].
  destruct cs; unfold mret, M_ret; split; by intros [=].
Qed.

Lemma retrieve_again w chunks w' :
  retrieve self query w = (Ok chunks, w') →
  retrieve self query w'
  = (Ok chunks, {| store := store w'; embed_calls := embed_calls w' ++ [query];
                   llm_calls := llm_calls w' |}).
Proof.
  intros Hr. destruct (retrieve_inv _ _ _ Hr) as (Hs & (e & He & Hsearch) & _).
  unfold retrieve in *.
  destruct (truthy query) eqn:Hq; simpl in *; [|by unfold_M].
  rewrite Hs. simpl. unfold_M. rewrite He. simpl.
  by rewrite (search_again _ _ _ _ _ _ Hsearch).
Qed.


(** X3. [retrieve] fails with the empty-query error on every query that
    is empty or all whitespace, before the embedder or the index is
    touched. *)
Theorem retrieve_rejects_blank w :
  blank query →
  retrieve self query w = (Raise (ValueError "Query cannot be empty"), w).
Proof.
  intros Hb. apply PyFacts.truthy_strip in Hb.
  unfold retrieve. rewrite Hb. by destruct (truthy query).
Qed.

(** X4. [retrieve_as_context] returns the fixed sentinel exactly when
    nothing was retrieved; a context made of chunks starts with the label
    of its first block, so the two cannot be confused. *)
Theorem retrieve_as_context_sentinel `{FloatRepr} w chunks w' :
  retrieve self query w = (Ok chunks, w') →
  ∃ context,
    retrieve_as_context self query w = (Ok context, w')
    ∧ (chunks = [] → context = "No relevant context found.")
    ∧ (chunks ≠ [] →
       context ≠ "No relevant context found."
       ∧ ∃ rest, context = "[CONTEXT 1 | Source: " +:+ rest).
Proof.
  intros Hr. exists (format_context chunks).
  unfold retrieve_as_context. unfold mbind, M_bind. rewrite Hr.
  split; [done|]. split; [by intros ->|].
  intros Hne. destruct chunks as [|c [|c' cs]]; [done| |].
  - split; [done|]. eexists. reflexivity.
  - split; [done|]. eexists. reflexivity.
Qed.

End retrieve.

Lemma retrieve_rejects_blank_witness :
  retrieve (H := exact_engine) (H0 := Examples.east_embedder)
    Examples.retriever "   " (Examples.fresh Examples.papers)
  = (Raise (ValueError "Query cannot be empty"), Examples.fresh Examples.papers).
Proof.
  apply (retrieve_rejects_blank (H := exact_engine)
           (H0 := Examples.east_embedder)).
  repeat constructor.
Defined.

Lemma retrieve_as_context_sentinel_witness :
  ∃ w' context,
    retrieve_as_context (H := exact_engine) (H0 := Examples.east_embedder)
      (H1 := Examples.fraction_repr) Examples.retriever "what is attention"
      (Examples.fresh Examples.papers) = (Ok context, w')
    ∧ context ≠ "No relevant context found."
    ∧ ∃ rest, context = "[CONTEXT 1 | Source: " +:+ rest.
Proof.
  eassert (retrieve (H := exact_engine) (H0 := Examples.east_embedder)
             Examples.retriever "what is attention"
             (Examples.fresh Examples.papers) = (Ok (_ :: _), _)) as Hr
    by (vm_compute; reflexivity).
  destruct (retrieve_as_context_sentinel (H := exact_engine)
              (H0 := Examples.east_embedder) (H1 := Examples.fraction_repr)
              _ _ _ _ _ Hr) as (context & Hc & _ & Hne).
  eexists _, context. split; [exact Hc|]. by apply Hne.
Defined.



(** The score follows the doubles where they part from the decimals: the
    mean of 0.0002 and 0.0003 is the tie 0.00025, and the double of the
    quotient lies above it; the mean of 0.5155, 0.2502, 0.1522 and 0.0819
    is the tie 0.24995, and the double of the quotient lies below it. *)
Example score_of_a_tie_above :
  round4 (avg_score (Examples.scored <$> [2 # 10000; 3 # 10000]%Q))
  = (3 # 10000)%Q
  ∧ (mean [2 # 10000; 3 # 10000] == 25 # 100000)%Q
  ∧ (25 # 100000 < avg_score (Examples.scored <$> [2 # 10000; 3 # 10000]))%Q.
Proof. split; [by vm_compute|]. split; by vm_compute. Qed.

Example score_of_a_tie_below :
  round4 (avg_score (Examples.scored
                       <$> [5155 # 10000; 2502 # 10000; 1522 # 10000;
                            819 # 10000]%Q))
  = (2499 # 10000)%Q
  ∧ (mean [5155 # 10000; 2502 # 10000; 1522 # 10000; 819 # 10000]
     == 24995 # 100000)%Q
  ∧ (avg_score (Examples.scored
                  <$> [5155 # 10000; 2502 # 10000; 1522 # 10000;
                       819 # 10000]) < 24995 # 100000)%Q.
Proof. split; [by vm_compute|]. split; by vm_compute. Qed.

(** The double nearest to one tenth. *)
Example double_of_a_tenth :
  (double (1 # 10) == 3602879701896397 # 36028797018963968)%Q.
Proof. by vm_compute. Qed.

End RetrieverFacts.

(** ** The orchestrator *)

Module TranslatorFacts.
Import Retriever Translator RetrieverFacts Spec.

#[local] Arguments slice_to : simpl never.

Lemma not_blank s : ¬ blank s ↔ truthy (strip s) = true.
Proof.
  unfold blank. rewrite <- PyFacts.truthy_strip.
  destruct (truthy (strip s)); split; done.
Qed.


Section orchestrator.
Context `{Engine, Embedder, ChatModel, FloatRepr}.
Variable retriever : Retriever.t.

(** C6. [translate] fails with [InvalidInput] on every text that is
    empty or all whitespace, whatever the language, and with
    [UnsupportedLanguage] on every other text when the language is not
    one of [SUPPORTED_LANGUAGES]; no port is called in either case. *)
Theorem translate_rejects (text target : string) (use_context : bool) (w : world) :
  (blank text →
     translate retriever text target use_context w = (Raise InvalidInput, w))
  ∧ (¬ blank text → target ∉ SUPPORTED_LANGUAGES →
     translate retriever text target use_context w
     = (Raise UnsupportedLanguage, w)).
Proof.
  unfold translate. split.
  - intros Hb. apply PyFacts.truthy_strip in Hb. by rewrite Hb.
  - intros Hb Ht. apply not_blank in Hb. rewrite Hb. simpl.
    by rewrite bool_decide_false.
Qed.


(** C1. When the retrieval for a question scores strictly below 0.25,
    [answer_question] returns the fixed answer with an empty
    [context_used] and the generation port is not called; when it scores
    0.25 or more, the prompt is built from the formatted chunks and the
    question, sent to the generation port once, and the response is the
    answer, next to the chunks and the score. *)
Theorem answer_question_gate (question : string) (w w1 : world)
    (chunks : list ScoredChunk) (avg : Q) :
  retrieve_with_scores retriever question w = (Ok (chunks, avg), w1) →
  ((avg < 25 # 100)%Q →
     answer_question retriever question w
     = (Ok {| answer := no_information; context_used := [];
              avg_relevance := avg |}, w1)
     ∧ llm_calls w1 = llm_calls w)
  ∧ ((25 # 100 <= avg)%Q →
     let prompt := [qa_system_message;
                    qa_human_message (format_context chunks) question] in
     ∃ w2,
       answer_question retriever question w
       = ((λ response, {| answer := response; context_used := chunks;
                          avg_relevance := avg |}) <$> llm_invoke prompt, w2)
       ∧ llm_calls w2 = llm_calls w ++ [prompt]).
Proof.
  intros Hr.
  destruct (retrieve_with_scores_inv _ _ _ _ _ _ Hr) as [Hret _].
  destruct (retrieve_inv _ _ _ _ _ Hret) as (Hs & _ & _ & Hllm).
  unfold answer_question. rewrite Hs. cbn [negb].
  split.
  - intros Hlt. apply PyFacts.lt_spec in Hlt.
    unfold mbind, M_bind. rewrite Hr, Hlt. done.
  - intros Hge.
    assert (lt avg (25 # 100) = false) as Hlt.
    { destruct (lt avg (25 # 100)) eqn:E; [|done].
      apply PyFacts.lt_spec in E. by apply Qlt_not_le in E. }
    unfold retrieve_as_context.
    unfold mbind, M_bind. rewrite Hr, Hlt, (retrieve_again _ _ _ _ _ Hret).
    unfold mret, M_ret, call_llm.
    eexists. split.
    + by destruct (llm_invoke _).
    + simpl. by rewrite Hllm.
Qed.

(** X5. [answer_question] fails with the empty-question error on every
    question that is empty or all whitespace, before any retrieval or
    generation. *)
Theorem answer_question_rejects_blank (question : string) (w : world) :
  blank question →
  answer_question retriever question w
  = (Raise (ValueError "Question cannot be empty"), w).
Proof.
  intros Hb. apply PyFacts.truthy_strip in Hb.
  unfold answer_question. by rewrite Hb.
Qed.

(** X6. With [use_context] false, [translate] retrieves nothing: on a text
    that is not blank and a supported language the embedder and the index
    are left alone, the prompt is the one without a reference section, it
    is sent to the generation port once, and [context_used] is empty. *)
Theorem translate_without_context (text target : string) (w : world) :
  ¬ blank text → target ∈ SUPPORTED_LANGUAGES →
  let prompt := [translate_system_message target;
                 HumanMessage (without_reference target text)] in
  translate retriever text target false w
  = ((λ response, {| translation := response; target_language := target;
                     translation_context_used := [] |}) <$> llm_invoke prompt,
     with_llm_call w prompt).
Proof.
  intros Hb Ht prompt. unfold translate. apply not_blank in Hb.
  rewrite Hb. cbn [negb]. rewrite bool_decide_true by done. cbn [negb].
  unfold mbind, M_bind, mret, M_ret, call_llm. simpl.
  change (human_content "" target text) with (without_reference target text).
  fold prompt. by destruct (llm_invoke prompt).
Qed.

End orchestrator.

Lemma answer_question_rejects_blank_witness :
  answer_question (H := exact_engine) (H0 := Examples.east_embedder)
    (H1 := Examples.echo_model) (H2 := Examples.fraction_repr)
    Examples.retriever "  " (Examples.fresh Examples.papers)
  = (Raise (ValueError "Question cannot be empty"),
     Examples.fresh Examples.papers).
Proof.
  apply (answer_question_rejects_blank (H := exact_engine)
           (H0 := Examples.east_embedder) (H1 := Examples.echo_model)
           (H2 := Examples.fraction_repr)).
  repeat constructor.
Defined.

Lemma translate_without_context_witness :
  translate (H := exact_engine) (H0 := Examples.east_embedder)
    (H1 := Examples.echo_model) Examples.retriever Examples.passage "French"
    false (Examples.fresh Examples.papers)
  = (Ok {| translation := "generated"; target_language := "French";
           translation_context_used := [] |},
     with_llm_call (Examples.fresh Examples.papers)
       [translate_system_message "French";
        HumanMessage (without_reference "French" Examples.passage)]).
Proof.
  apply (translate_without_context (H := exact_engine)
           (H0 := Examples.east_embedder) (H1 := Examples.echo_model)
           Examples.retriever Examples.passage "French"
           (Examples.fresh Examples.papers)).
  - apply not_blank. reflexivity.
  - apply list_elem_of_In. simpl. tauto.
Defined.

Lemma answer_question_gate_witness :
  (∃ avg w1,
     answer_question (H := exact_engine) (H0 := Examples.east_embedder)
       (H1 := Examples.echo_model) (H2 := Examples.fraction_repr)
       Examples.retriever "how to bake" (Examples.fresh Examples.unrelated)
     = (Ok {| answer := no_information; context_used := [];
              avg_relevance := avg |}, w1)
     ∧ (avg < 25 # 100)%Q
     ∧ llm_calls w1 = [])
  ∧ (∃ chunks avg w2,
       answer_question (H := exact_engine) (H0 := Examples.east_embedder)
         (H1 := Examples.echo_model) (H2 := Examples.fraction_repr)
         Examples.retriever "what is attention" (Examples.fresh Examples.papers)
       = (Ok {| answer := "generated"; context_used := chunks;
                avg_relevance := avg |}, w2)
       ∧ (25 # 100 <= avg)%Q
       ∧ length chunks = 3
       ∧ length (llm_calls w2) = 1).
Proof.
  split.
  - eassert (retrieve_with_scores (H := exact_engine)
               (H0 := Examples.east_embedder) Examples.retriever "how to bake"
               (Examples.fresh Examples.unrelated) = (Ok (_, _), _)) as Hr
      by (vm_compute; reflexivity).
    destruct (answer_question_gate (H := exact_engine)
                (H0 := Examples.east_embedder) (H1 := Examples.echo_model)
                (H2 := Examples.fraction_repr) _ _ _ _ _ _ Hr) as [Hlow _].
    destruct Hlow as [Ha Hl]; [reflexivity|].
    eexists _, _. split; [exact Ha|]. split; [reflexivity|exact Hl].
  - eassert (retrieve_with_scores (H := exact_engine)
               (H0 := Examples.east_embedder) Examples.retriever
               "what is attention" (Examples.fresh Examples.papers)
             = (Ok (_, _), _)) as Hr
      by (vm_compute; reflexivity).
    destruct (answer_question_gate (H := exact_engine)
                (H0 := Examples.east_embedder) (H1 := Examples.echo_model)
                (H2 := Examples.fraction_repr) _ _ _ _ _ _ Hr) as [_ Hhigh].
    destruct Hhigh as (w2 & Ha & Hl); [by intros H|].
    eexists _, _, w2. split; [exact Ha|]. split; [by intros H|].
    split; [reflexivity|]. rewrite Hl. reflexivity.
Defined.


(** The scenario of the specification. *)
Example translate_empty_text :
  translate (H := exact_engine) (H0 := Examples.east_embedder)
    (H1 := Examples.echo_model) Examples.retriever "" "French" true
    (Examples.fresh Examples.papers)
  = (Raise InvalidInput, Examples.fresh Examples.papers).
Proof. reflexivity. Qed.

Example translate_to_klingon :
  translate (H := exact_engine) (H0 := Examples.east_embedder)
    (H1 := Examples.echo_model) Examples.retriever "text" "Klingon" true
    (Examples.fresh Examples.papers)
  = (Raise UnsupportedLanguage, Examples.fresh Examples.papers).
Proof. reflexivity. Qed.

Example translate_blank_text_to_klingon :
  translate (H := exact_engine) (H0 := Examples.east_embedder)
    (H1 := Examples.echo_model) Examples.retriever "   " "Klingon" false
    (Examples.fresh Examples.papers)
  = (Raise InvalidInput, Examples.fresh Examples.papers).
Proof. reflexivity. Qed.

End TranslatorFacts.

(** ** The splitter *)

Module TextSplitterFacts.
Import TextSplitter Spec.

Lemma length_app (a b : string) :
  String.length (a +:+ b) = String.length a + String.length b.
Proof. induction a as [|c a IH]; simpl; [done|]. by rewrite IH. Qed.

Lemma lstrip_length s : String.length (lstrip s) ≤ String.length s.
Proof.
  induction s as [|c s IH]; simpl; [done|].
  destruct (is_space c); simpl; lia.
Qed.

Lemma rstrip_length s : String.length (rstrip s) ≤ String.length s.
Proof.
  induction s as [|c s IH]; simpl; [done|].
  destruct (rstrip s); [destruct (is_space c)|]; simpl in *; lia.
Qed.

Lemma strip_length s : String.length (strip s) ≤ String.length s.
Proof.
  unfold strip. etrans; [apply rstrip_length|apply lstrip_length].
Qed.

Lemma total_len_app l1 l2 : total_len (l1 ++ l2) = (total_len l1 + total_len l2)%Z.
Proof. induction l1 as [|s l1 IH]; simpl; [done|]. rewrite IH. lia. Qed.

Lemma total_len_nonneg l : (0 ≤ total_len l)%Z.
Proof. induction l as [|s l IH]; simpl; unfold len in *; lia. Qed.

Lemma join_empty_length l : len (join EmptyString l) = total_len l.
Proof.
  induction l as [|s [|s' l] IH].
  - done.
  - simpl. unfold len. lia.
  - change (join EmptyString (s :: s' :: l))
      with (s +:+ join EmptyString (s' :: l)).
    change (total_len (s :: s' :: l)) with (len s + total_len (s' :: l))%Z.
    rewrite <- IH. unfold len. rewrite length_app. lia.
Qed.

Lemma join_docs_length l t :
  join_docs l EmptyString = Some t → (len t ≤ total_len l)%Z.
Proof.
  unfold join_docs. destruct (truthy _); [|done]. intros [= <-].
  rewrite <- join_empty_length. unfold len.
  pose proof (strip_length (join EmptyString l)). lia.
Qed.

Section merge.
Variables (chunk_size chunk_overlap : Z).

Abbreviation pop := (pop_front chunk_size chunk_overlap EmptyString).
Abbreviation step := (merge_step chunk_size chunk_overlap EmptyString).

(** What [pop_front] leaves: a document whose summed length is still
    [total], and room for the next piece. *)
Lemma pop_front_spec d_len cur :
  let '(cur', tot') := pop d_len cur (total_len cur) in
  tot' = total_len cur'
  ∧ (tot' = 0 ∨ tot' + d_len ≤ chunk_size)%Z.
Proof.
  induction cur as [|d cur IH]; simpl; [auto|].
  unfold separator_len. change (len EmptyString) with 0%Z.
  destruct ((_ >? _)%Z || _) eqn:Hc.
  - replace (len d + total_len cur
             - (len d + (if (1 <? S (length cur))%nat then 0 else 0)))%Z
      with (total_len cur) by (destruct (1 <? S (length cur))%nat; lia).
    apply IH.
  - split; [done|].
    apply orb_false_iff in Hc as [_ Hc].
    apply andb_false_iff in Hc as [Hc|Hc].
    + right. lia.
    + pose proof (total_len_nonneg (d :: cur)). simpl in *. left. lia.
Qed.

Lemma append_doc_bounded ds cur :
  Forall (λ t, len t ≤ chunk_size)%Z ds →
  (total_len cur ≤ chunk_size)%Z ∨ cur = [] →
  Forall (λ t, len t ≤ chunk_size)%Z
    (append_doc ds (join_docs cur EmptyString)).
Proof.
  intros Hds [Hcur| ->]; [|done].
  destruct (join_docs cur EmptyString) as [t|] eqn:E; simpl; [|done].
  apply Forall_app. split; [done|]. constructor; [|done].
  apply join_docs_length in E. lia.
Qed.

Lemma merge_step_inv st d :
  (len d < chunk_size)%Z → merge_inv chunk_size st → merge_inv chunk_size (step st d).
Proof.
  intros Hd (Htot & Hle & Hdocs). unfold merge_step.
  unfold separator_len. change (len EmptyString) with 0%Z.
  replace (if (0 <? length (current_doc st))%nat then 0%Z else 0%Z)
    with 0%Z by (by destruct (0 <? _)%nat).
  destruct (total st + len d + 0 >? chunk_size)%Z eqn:Hover.
  - destruct (current_doc st) as [|d0 cur] eqn:Hcur.
    + (* nothing to flush *)
      rewrite Hcur. simpl. simpl in Htot.
      repeat split; simpl; [lia|left; lia|done].
    + pose proof (pop_front_spec (len d) (d0 :: cur)) as Hpop.
      rewrite <- Htot in Hpop.
      destruct (pop (len d) (d0 :: cur) (total st)) as [cur' tot'].
      destruct Hpop as [Ht' Hroom]. simpl.
      replace (if (1 <? length (cur' ++ [d]))%nat then 0%Z else 0%Z)
        with 0%Z by (by destruct (1 <? _)%nat).
      repeat split; simpl.
      * rewrite total_len_app. simpl. lia.
      * left. lia.
      * apply append_doc_bounded; [done|]. left.
        destruct Hle as [Hle|Hle]; [lia|done].
  - simpl.
    replace (if (1 <? length (current_doc st ++ [d]))%nat then 0%Z else 0%Z)
      with 0%Z by (by destruct (1 <? _)%nat).
    repeat split; simpl.
    + rewrite total_len_app. simpl. lia.
    + left. lia.
    + done.
Qed.

Lemma merge_foldl_inv splits st :
  Forall (λ d, len d < chunk_size)%Z splits →
  merge_inv chunk_size st → merge_inv chunk_size (foldl step st splits).
Proof.
  revert st. induction splits as [|d splits IH]; intros st Hs Hst; [done|].
  inversion Hs; subst. simpl. apply IH; [done|]. by apply merge_step_inv.
Qed.

(** Every document that [_merge_splits] makes of pieces shorter than
    [chunk_size] has at most [chunk_size] characters. *)
Lemma merge_splits_bounded splits :
  Forall (λ d, len d < chunk_size)%Z splits →
  Forall (λ t, len t ≤ chunk_size)%Z
    (merge_splits chunk_size chunk_overlap EmptyString splits).
Proof.
  intros Hs. unfold merge_splits.
  destruct (merge_foldl_inv splits
              {| docs := []; current_doc := []; total := 0 |} Hs)
    as (Htot & Hle & Hdocs).
  { repeat split; simpl; [by right|done]. }
  apply append_doc_bounded; [done|].
  destruct Hle as [Hle|Hle]; [left; lia|by right].
Qed.

End merge.

Lemma prefix_single c a t :
  String.prefix (single c) (String a t) = bool_decide (c = a).
Proof.
  unfold single. simpl. destruct (ascii_dec c a) as [->|Hne].
  - rewrite bool_decide_true by done. by destruct t.
  - by rewrite bool_decide_false.
Qed.

Lemma occurs_single_false c text :
  occurs (single c) text = false → c ∉ chars_of text.
Proof.
  induction text as [|a t IH].
  - intros _. apply not_elem_of_nil.
  - change (occurs (single c) (String a t))
      with (String.prefix (single c) (String a t) || occurs (single c) t).
    rewrite prefix_single.
    intros H. apply orb_false_iff in H as [Hp Ho].
    apply bool_decide_eq_false in Hp.
    apply not_elem_of_cons. split; [done|]. by apply IH.
Qed.

(** Cutting on a one-character separator: the piece up to the first match
    holds no separator, and every later piece is the separator followed by
    characters that are not the separator; all are made of characters of
    the text. *)
Lemma split_keep_go_single c text :
  let '(cur, rest) := split_keep_go (single c) 0 text in
  (c ∉ chars_of cur)
  ∧ (chars_of cur ⊆ chars_of text)
  ∧ Forall (λ p, ∃ p', p = String c p' ∧ (c ∉ chars_of p')
                       ∧ (chars_of p ⊆ chars_of text)) rest.
Proof.
  induction text as [|a t IH].
  - simpl. split; [apply not_elem_of_nil|]. split; [done|constructor].
  - cbn [split_keep_go]. rewrite prefix_single.
    change (String.length (single c) - 1) with 0.
    destruct (split_keep_go (single c) 0 t) as [cur rest].
    destruct IH as (Hc & Hsub & Hrest).
    assert (Forall (λ p, ∃ p', p = String c p' ∧ (c ∉ chars_of p')
                               ∧ (chars_of p ⊆ chars_of (String a t))) rest) as Hrest'.
    { eapply Forall_impl; [exact Hrest|]. intros p (p' & -> & Hp' & Hsubp).
      exists p'. split; [done|]. split; [done|].
      intros x Hx. apply elem_of_cons. right. by apply Hsubp. }
    case_bool_decide as Hca.
    + subst a. split; [apply not_elem_of_nil|]. split; [by intros x Hx%elem_of_nil|].
      constructor; [|done]. exists cur. split; [done|]. split; [done|].
      intros x Hx. simpl in Hx. apply elem_of_cons in Hx as [->|Hx].
      * apply elem_of_cons. by left.
      * apply elem_of_cons. right. by apply Hsub.
    + split.
      { simpl. apply not_elem_of_cons. split; [done|]. done. }
      split; [|done].
      intros x Hx. simpl in Hx. apply elem_of_cons in Hx as [->|Hx].
      * apply elem_of_cons. by left.
      * apply elem_of_cons. right. by apply Hsub.
Qed.

(** The pieces of a text cut on a one-character separator: past its first
    character a piece holds characters that the text holds past its first,
    and none of them is the separator. *)
Lemma split_single_pieces c text p :
  p ∈ split_text_with_regex text (single c) →
  (inner p ⊆ inner text) ∧ c ∉ inner p.
Proof.
  unfold split_text_with_regex. cbn [truthy single].
  destruct text as [|a t].
  - simpl. intros Hp%list_elem_of_filter. destruct Hp as [Hne Hp].
    apply list_elem_of_singleton in Hp. done.
  - cbn [split_keep_go]. fold (single c). rewrite prefix_single.
    change (String.length (single c) - 1) with 0.
    pose proof (split_keep_go_single c t) as Hgo.
    destruct (split_keep_go (single c) 0 t) as [cur rest].
    destruct Hgo as (Hc & Hsub & Hrest).
    assert (∀ q, q ∈ rest → (inner q ⊆ inner (String a t)) ∧ c ∉ inner q) as Hq.
    { intros q Hq. rewrite Forall_forall in Hrest.
      destruct (Hrest q Hq) as (q' & -> & Hq' & Hsubq). simpl. split; [|done].
      intros x Hx. apply Hsubq. simpl. apply elem_of_cons. by right. }
    assert ((inner (String a cur) ⊆ inner (String a t)) ∧ c ∉ inner (String a cur))
      as Hfirst by done.
    intros Hp. apply list_elem_of_filter in Hp as [Hne Hp].
    case_bool_decide.
    + apply elem_of_cons in Hp as [->|Hp]; [done|].
      apply elem_of_cons in Hp as [->|Hp]; [done|by apply Hq].
    + apply elem_of_cons in Hp as [->|Hp]; [done|by apply Hq].
Qed.

Lemma occurs_head c sep text :
  occurs (String c sep) text = true → c ∈ chars_of text.
Proof.
  induction text as [|a t IH]; [done|].
  change (occurs (String c sep) (String a t))
    with (String.prefix (String c sep) (String a t) || occurs (String c sep) t).
  intros H. apply orb_true_iff in H as [H|H].
  - simpl in H. destruct (ascii_dec c a) as [->|]; [|done].
    apply elem_of_cons. by left.
  - apply elem_of_cons. right. by apply IH.
Qed.

Section levels.
Variables (chunk_size chunk_overlap : Z).

Lemma flush_bounded Q good :
  Forall (λ d, len d < chunk_size)%Z good →
  Forall (fits_or chunk_size Q)
    match good with
    | [] => []
    | _ => merge_splits chunk_size chunk_overlap EmptyString good
    end.
Proof.
  intros Hg. destruct good as [|g good]; [constructor|].
  eapply Forall_impl; [by apply merge_splits_bounded|].
  intros t Ht. by left.
Qed.

Lemma split_loop_ok Q deeper splits : ∀ good,
  Forall (λ d, len d < chunk_size)%Z good →
  (∀ s, s ∈ splits → Forall (fits_or chunk_size Q) (deeper s)) →
  Forall (fits_or chunk_size Q) (split_loop chunk_size chunk_overlap deeper splits good).
Proof.
  induction splits as [|s splits IH]; intros good Hg Hdeep.
  - by apply flush_bounded.
  - cbn [split_loop]. destruct (len s <? chunk_size)%Z eqn:Hs.
    + apply IH.
      * apply Forall_app. split; [done|]. constructor; [lia|done].
      * intros s' Hs'. apply Hdeep. by right.
    + apply Forall_app. split; [by apply flush_bounded|].
      apply Forall_app. split; [apply Hdeep; by left|].
      apply IH; [constructor|]. intros s' Hs'. apply Hdeep. by right.
Qed.

(** Below the paragraph break every separator is one character. Going down
    the list, a text that holds none of the characters [D] past its first
    comes out in chunks that fit, or that hold past their first character
    none of [D] and none of the separators still to come. *)
Lemma split_text_from_single rest : ∀ c text D,
  free_of D text →
  Forall (fits_or chunk_size (free_of (D ++ c :: rest)))
    (split_text_from chunk_size chunk_overlap (single c) (single <$> rest) text).
Proof.
  induction rest as [|c' rest IH]; intros c text D HD.
  - cbn [split_text_from fmap list_fmap single truthy negb].
    apply split_loop_ok; [constructor|].
    intros p Hp. apply split_single_pieces in Hp as [Hsub Hc].
    constructor; [|constructor]. right.
    intros d Hd. apply elem_of_app in Hd as [Hd|Hd].
    + intros Hin. by apply (HD d Hd), Hsub.
    + apply list_elem_of_singleton in Hd as ->. done.
  - cbn [split_text_from fmap list_fmap single truthy negb].
    assert (D ++ c :: c' :: rest = (D ++ [c]) ++ c' :: rest) as ->
      by (by rewrite <- app_assoc).
    destruct (occurs (single c) text) eqn:Hocc.
    + apply split_loop_ok; [constructor|].
      intros p Hp. apply split_single_pieces in Hp as [Hsub Hc].
      apply IH. intros d Hd. apply elem_of_app in Hd as [Hd|Hd].
      * intros Hin. by apply (HD d Hd), Hsub.
      * apply list_elem_of_singleton in Hd as ->. done.
    + apply IH. intros d Hd. apply elem_of_app in Hd as [Hd|Hd].
      * by apply HD.
      * apply list_elem_of_singleton in Hd as ->.
        apply occurs_single_false in Hocc.
        intros Hin. apply Hocc. destruct text; [done|].
        apply elem_of_cons. by right.
Qed.

End levels.

Lemma separators_boundary_chars :
  Chunker.separators = (nl +:+ nl) :: (single <$> boundary_chars).
Proof. reflexivity. Qed.

(** With the separators of [Chunker], every chunk fits in [chunk_size] or
    holds no boundary character past its first character. *)
Lemma split_text_separators chunk_size chunk_overlap text :
  Forall (fits_or chunk_size (free_of boundary_chars))
    (split_text chunk_size chunk_overlap Chunker.separators text).
Proof.
  rewrite separators_boundary_chars. unfold boundary_chars.
  cbn [split_text fmap list_fmap].
  cbn [split_text_from truthy negb nl append].
  pose proof (split_text_from_single chunk_size chunk_overlap
                ["."%char; "!"%char; "?"%char; " "%char] (ascii_of_nat 10)) as Hlevel.
  cbn [fmap list_fmap] in Hlevel.
  destruct (occurs _ text).
  - apply split_loop_ok; [constructor|].
    intros p _. apply (Hlevel p []). by intros d Hd%elem_of_nil.
  - apply (Hlevel text []). by intros d Hd%elem_of_nil.
Qed.

End TextSplitterFacts.

(** ** The chunker *)

Module ChunkerFacts.
Import Chunker TextSplitter TextSplitterFacts Spec.

Lemma free_of_atomic s : free_of boundary_chars s → atomic s.
Proof.
  intros Hfree sep Hsep.
  destruct (occurs sep (string_tail s)) eqn:Hocc; [|done]. exfalso.
  assert (∃ c sep', sep = String c sep' ∧ c ∈ boundary_chars) as (c & sep' & -> & Hc).
  { unfold separators in Hsep.
    repeat (apply elem_of_cons in Hsep as [->|Hsep];
            [eexists _, _; split; [reflexivity|]; unfold boundary_chars;
             set_solver|]).
    by apply elem_of_nil in Hsep. }
  apply occurs_head in Hocc. apply (Hfree c Hc). by destruct s.
Qed.

Lemma init_inv (chunk_size chunk_overlap : Z) (self : t) :
  init (H := model_splitter) chunk_size chunk_overlap = Ok self →
  (0 < chunk_size)%Z ∧ (0 ≤ chunk_overlap ≤ chunk_size)%Z
  ∧ Chunker.chunk_size self = chunk_size
  ∧ splitter self = split_text chunk_size chunk_overlap separators.
Proof.
  unfold init, RecursiveCharacterTextSplitter, model_splitter, make.
  destruct (chunk_size <=? 0)%Z eqn:H1; [done|].
  destruct (chunk_overlap <? 0)%Z eqn:H2; [done|].
  destruct (chunk_overlap >? chunk_size)%Z eqn:H3; [done|].
  intros [= <-]. simpl. repeat split; lia.
Qed.

Lemma split_inv (self self' : t) (text source_name : string) :
  split self text source_name = Ok self' →
  truthy (strip text) = true
  ∧ chunks self'
    = imap (make_chunk source_name (splitter self text)) (splitter self text).
Proof.
  unfold split.
  destruct (truthy text); simpl; [|done].
  destruct (truthy (strip text)); simpl; [|done].
  by intros [= <-].
Qed.

Lemma chunk_id_inj (source_name : string) (i j : nat) :
  source_name +:+ "_chunk_" +:+ pretty i = source_name +:+ "_chunk_" +:+ pretty j →
  i = j.
Proof.
  intros Heq. apply (inj (String.app source_name)) in Heq.
  apply (inj (String.app "_chunk_")) in Heq.
  by apply (inj pretty) in Heq.
Qed.

(** C8. After a successful [split], the chunks are the pieces of the
    splitter in their order, one chunk for each piece: the chunk at
    position [i] holds piece [i], has [chunk_index] [i] (counted from 0,
    with no gap), has for [total_chunks] the number of chunks of this
    call, and has the id made of the source name, [_chunk_] and the
    decimal of its index; so different positions have different ids. *)
Theorem split_chunk_metadata (self self' : t) (text source_name : string) :
  split self text source_name = Ok self' →
  length (get_chunks self') = length (splitter self text)
  ∧ get_chunk_count self' = length (get_chunks self')
  ∧ (∀ i c, get_chunks self' !! i = Some c →
       splitter self text !! i = Some (Chunker.text c)
       ∧ chunk_index (metadata c) = i
       ∧ total_chunks (metadata c) = length (get_chunks self')
       ∧ source (metadata c) = source_name
       ∧ id c = source_name +:+ "_chunk_" +:+ pretty (chunk_index (metadata c)))
  ∧ (∀ i j c c', get_chunks self' !! i = Some c → get_chunks self' !! j = Some c' →
       id c = id c' → i = j).
Proof.
  intros Hs. destruct (split_inv _ _ _ _ Hs) as [_ Hc].
  unfold get_chunk_count, get_chunks. rewrite Hc.
  assert (∀ i c,
    imap (make_chunk source_name (splitter self text)) (splitter self text) !! i
      = Some c →
    ∃ p, splitter self text !! i = Some p
         ∧ c = make_chunk source_name (splitter self text) i p) as Hat.
  { intros i c Hi. rewrite list_lookup_imap in Hi.
    destruct (splitter self text !! i) as [p|]; [|done].
    simpl in Hi. injection Hi as <-. eauto. }
  split; [by rewrite length_imap|]. split; [done|]. split.
  - intros i c Hi. destruct (Hat _ _ Hi) as (p & Hp & ->). simpl.
    by rewrite length_imap.
  - intros i j c c' Hi Hj Hid.
    destruct (Hat _ _ Hi) as (p & _ & ->).
    destruct (Hat _ _ Hj) as (p' & _ & ->).
    simpl in Hid. by apply chunk_id_inj in Hid.
Qed.

(** X8. [split] fails with the empty-text error on every text that is
    empty or all whitespace, whatever the splitter. *)
Theorem split_rejects_blank (self : t) (text source_name : string) :
  blank text →
  split self text source_name
  = Raise (ValueError "Text is empty — nothing to chunk").
Proof.
  intros Hb. apply PyFacts.truthy_strip in Hb.
  unfold split. rewrite Hb. by destruct (truthy text).
Qed.

Lemma split_rejects_blank_witness :
  split {| chunk_size := 500; chunk_overlap := 50; chunks := [];
           splitter := split_text 500 50 separators |} "  " "paper.pdf"
  = Raise (ValueError "Text is empty — nothing to chunk").
Proof. apply split_rejects_blank. repeat constructor. Defined.

Lemma split_chunk_metadata_witness :
  ∃ self self',
    init (H := model_splitter) 40 10 = Ok self
    ∧ split self "Attention is all you need. The encoder maps an input sequence. The decoder generates output!" "paper.pdf" = Ok self'
    ∧ id <$> get_chunks self'
      = ["paper.pdf_chunk_0"; "paper.pdf_chunk_1"; "paper.pdf_chunk_2"]
    ∧ (length (get_chunks self')
       = length (splitter self "Attention is all you need. The encoder maps an input sequence. The decoder generates output!")
       ∧ get_chunk_count self' = length (get_chunks self')
       ∧ (∀ i c, get_chunks self' !! i = Some c →
            splitter self "Attention is all you need. The encoder maps an input sequence. The decoder generates output!" !! i
            = Some (Chunker.text c)
            ∧ chunk_index (metadata c) = i
            ∧ total_chunks (metadata c) = length (get_chunks self')
            ∧ source (metadata c) = "paper.pdf"
            ∧ id c = "paper.pdf" +:+ "_chunk_" +:+ pretty (chunk_index (metadata c)))
       ∧ (∀ i j c c', get_chunks self' !! i = Some c →
            get_chunks self' !! j = Some c' → id c = id c' → i = j)).
Proof.
  eexists _, _. split; [reflexivity|]. split; [reflexivity|].
  split; [vm_compute; reflexivity|].
  apply (split_chunk_metadata _ _ _ "paper.pdf"). reflexivity.
Defined.

(** C3. A chunker built with [chunk_size] and [chunk_overlap] splits every
    text that is not blank, and every chunk it makes records as
    [char_count] the length of its text, which is at most [chunk_size]
    unless the chunk is one atomic token: a piece in which no separator
    occurs after the first character, so that there was no boundary to cut
    it at. *)
Theorem split_char_count_bounded (chunk_size chunk_overlap : Z) (self : t)
    (text source_name : string) :
  init (H := model_splitter) chunk_size chunk_overlap = Ok self →
  truthy (strip text) = true →
  ∃ self',
    split self text source_name = Ok self'
    ∧ ∀ c, c ∈ get_chunks self' →
        char_count (metadata c) = String.length (Chunker.text c)
        ∧ ((Z.of_nat (char_count (metadata c)) ≤ chunk_size)%Z
           ∨ atomic (Chunker.text c)).
Proof.
  intros Hinit Htext. apply init_inv in Hinit as (_ & _ & _ & Hsp).
  unfold split. rewrite Htext.
  assert (truthy text = true) as -> by (by destruct text).
  simpl. eexists. split; [reflexivity|]. simpl.
  intros c Hc. apply list_elem_of_lookup in Hc as [i Hi].
  rewrite list_lookup_imap in Hi.
  destruct (splitter self text !! i) as [p|] eqn:Hp; [|done].
  simpl in Hi. injection Hi as <-. simpl. split; [done|].
  apply list_elem_of_lookup_2 in Hp. rewrite Hsp in Hp.
  pose proof (split_text_separators chunk_size chunk_overlap text) as Hall.
  rewrite Forall_forall in Hall. destruct (Hall p Hp) as [Hfit|Hfree].
  - by left.
  - right. by apply free_of_atomic.
Qed.

Lemma split_char_count_bounded_witness :
  ∃ self self',
    init (H := model_splitter) 12 3 = Ok self
    ∧ split self "Pneumonoultramicroscopic dust. Short words here" "paper.pdf"
      = Ok self'
    ∧ (λ c, char_count (metadata c)) <$> get_chunks self' = [24; 4; 7; 10]
    ∧ ∀ c, c ∈ get_chunks self' →
        char_count (metadata c) = String.length (Chunker.text c)
        ∧ ((Z.of_nat (char_count (metadata c)) ≤ 12)%Z
           ∨ atomic (Chunker.text c)).
Proof.
  destruct (split_char_count_bounded 12 3
              {| chunk_size := 12; chunk_overlap := 3; chunks := [];
                 splitter := split_text 12 3 separators |}
              "Pneumonoultramicroscopic dust. Short words here" "paper.pdf"
              eq_refl eq_refl) as (self' & Hsplit & Hall).
  eexists _, self'. split; [reflexivity|]. split; [exact Hsplit|].
  split; [|exact Hall].
  injection Hsplit as <-. vm_compute. reflexivity.
Defined.

End ChunkerFacts.

(** ** Rounding *)

Module RoundingFacts.

Ltac compare_facts :=
  repeat match goal with
         | H : (_ ?= _)%Q = Eq |- _ => apply Qeq_alt in H
         | H : (_ ?= _)%Q = Lt |- _ => apply Qlt_alt in H
         | H : (_ ?= _)%Q = Gt |- _ => apply Qgt_alt in H
         end.

Lemma floor_bounds x : (inject_Z (Qfloor x) <= x)%Q ∧ (x < inject_Z (Qfloor x + 1))%Q.
Proof. split; [apply Qfloor_le|apply Qlt_floor]. Qed.

Lemma round_half_even_cases x :
  round_half_even x = Qfloor x ∨ round_half_even x = (Qfloor x + 1)%Z.
Proof.
  unfold round_half_even.
  destruct (x - inject_Z (Qfloor x) ?= 1 # 2)%Q; [destruct (Z.even _)|..]; auto.
Qed.

(** [round] is within one half of its argument. *)
Lemma round_half_even_error x :
  (x - (1 # 2) <= inject_Z (round_half_even x))%Q
  ∧ (inject_Z (round_half_even x) <= x + (1 # 2))%Q.
Proof.
  destruct (floor_bounds x) as [Hlo Hhi].
  rewrite inject_Z_plus in Hhi. change (inject_Z 1) with 1%Q in Hhi.
  unfold round_half_even.
  destruct (x - inject_Z (Qfloor x) ?= 1 # 2)%Q eqn:E.
  - apply Qeq_alt in E.
    destruct (Z.even (Qfloor x)); rewrite ?inject_Z_plus;
      change (inject_Z 1) with 1%Q; split; lra.
  - apply Qlt_alt in E. split; lra.
  - apply Qgt_alt in E. rewrite inject_Z_plus.
    change (inject_Z 1) with 1%Q. split; lra.
Qed.

Lemma inject_Z_lt_inv a b : (inject_Z a < inject_Z b)%Q → (a < b)%Z.
Proof. by rewrite <- Zlt_Qlt. Qed.

(** [round] is monotone. *)
Lemma round_half_even_mono x y :
  (x <= y)%Q → (round_half_even x <= round_half_even y)%Z.
Proof.
  intros Hxy.
  pose proof (Qfloor_resp_le _ _ Hxy) as Hf.
  destruct (Z.eq_dec (Qfloor x) (Qfloor y)) as [Heq|Hne].
  - unfold round_half_even. rewrite <- Heq.
    destruct (x - inject_Z (Qfloor x) ?= 1 # 2)%Q eqn:Ex;
      destruct (y - inject_Z (Qfloor x) ?= 1 # 2)%Q eqn:Ey;
      try (destruct (Z.even (Qfloor x))); try lia;
      exfalso; compare_facts; lra.
  - destruct (round_half_even_cases x) as [-> | ->];
      destruct (round_half_even_cases y) as [-> | ->]; lia.
Qed.

Lemma round_half_even_inject z : round_half_even (inject_Z z) = z.
Proof.
  unfold round_half_even. rewrite Qfloor_Z.
  assert ((inject_Z z - inject_Z z ?= 1 # 2)%Q = Lt) as ->; [|done].
  apply Qlt_alt.
  assert (inject_Z z - inject_Z z == 0)%Q as -> by ring. reflexivity.
Qed.

(** [round(x, 4)] is monotone, moves its argument by at most half a unit
    of the fourth decimal, and leaves a number of four decimals alone. *)
Lemma round4_mono x y : (x <= y)%Q → (round4 x <= round4 y)%Q.
Proof.
  intros Hxy. unfold round4, Qle. simpl.
  apply Z.mul_le_mono_nonneg_r; [lia|].
  apply round_half_even_mono. lra.
Qed.

Lemma round4_as_quotient x :
  (round4 x == inject_Z (round_half_even (x * 10000)) / 10000)%Q.
Proof. unfold round4. rewrite Qmake_Qdiv. reflexivity. Qed.

Lemma round4_error x :
  (x - (1 # 20000) <= round4 x)%Q ∧ (round4 x <= x + (1 # 20000))%Q.
Proof.
  rewrite round4_as_quotient.
  destruct (round_half_even_error (x * 10000)) as [Hlo Hhi].
  split.
  - apply Qle_shift_div_l; [reflexivity|]. lra.
  - apply Qle_shift_div_r; [reflexivity|]. lra.
Qed.

Lemma round4_fixed z : round4 (z # 10000) = (z # 10000)%Q.
Proof.
  unfold round4. f_equal.
  assert ((z # 10000) * 10000 == inject_Z z)%Q as Heq.
  { unfold Qeq. simpl. lia. }
  unfold round_half_even.
  assert (Qfloor ((z # 10000) * 10000) = z) as ->.
  { rewrite Heq. apply Qfloor_Z. }
  assert (((z # 10000) * 10000 - inject_Z z ?= 1 # 2)%Q = Lt) as ->; [|done].
  apply Qlt_alt. rewrite Heq.
  assert (inject_Z z - inject_Z z == 0)%Q as -> by ring. reflexivity.
Qed.

Lemma round4_idempotent x : round4 (round4 x) = round4 x.
Proof. unfold round4 at 2 3. apply round4_fixed. Qed.

End RoundingFacts.

(** ** Scores: their accuracy, their order, and the gate *)

Module ScoreFacts.
Import Retriever Translator RetrieverFacts VectorStoreFacts RoundingFacts Indexing.

Lemma search_row_similarity results i c :
  search_row results i = Ok c → similarity c = round4 (1 - distance c).
Proof.
  unfold search_row.
  destruct (getitem (documents results) 0) as [docs|]; simpl; [|done].
  destruct (getitem docs i); simpl; [|done].
  destruct (getitem (metadatas results) 0) as [metas|]; simpl; [|done].
  destruct (getitem metas i); simpl; [|done].
  destruct (getitem (distances results) 0) as [dists|]; simpl; [|done].
  destruct (getitem dists i); simpl; [|done].
  by intros [= <-].
Qed.

Lemma search_rows_similarity results n : ∀ i l,
  search_rows results i n = Ok l →
  Forall (λ c, similarity c = round4 (1 - distance c)) l.
Proof.
  induction n as [|n IH]; intros i l; simpl.
  - by intros [= <-].
  - destruct (search_row results i) as [c|] eqn:Hc; simpl; [|done].
    destruct (search_rows results (S i) n) as [cs|] eqn:Hcs; simpl; [|done].
    intros [= <-]. constructor; [by eapply search_row_similarity|by eapply IH].
Qed.

(** Every similarity that [search] returns is a rounded one. *)
Lemma search_similarity_form `{Engine} (cl cl' : Client) name q k chunks :
  search cl name q k = (Ok chunks, cl') →
  Forall (λ c, similarity c = round4 (1 - distance c)) chunks.
Proof.
  unfold search. destruct (create_collection cl name) as [cl1 h].
  destruct (query cl1 h q k) as [r|]; simpl; [|done].
  destruct (getitem (documents r) 0) as [docs|]; simpl; [|done].
  intros [= Hrows _]. by eapply search_rows_similarity.
Qed.

(** With an engine that keeps the laws, [search] returns at most [k]
    chunks in ascending order of distance. *)
Lemma search_shape `{EngineLaws} (cl cl' : Client) name q k chunks :
  search cl name q k = (Ok chunks, cl') →
  (Z.of_nat (length chunks) ≤ k)%Z ∧ Sorted Qle (distance <$> chunks).
Proof.
  unfold search. destruct (create_collection cl name) as [cl1 h].
  unfold query. destruct (cl1 !! h) as [c|]; simpl; [|done].
  destruct (engine_query c q k) as [r|] eqn:Hq; simpl; [|done].
  destruct (query_one_row _ _ _ _ Hq) as (ds & ms & xs & Hd & Hm & Hx & Hlm & Hlx).
  rewrite Hd. simpl. intros [= Hrows <-].
  destruct (search_rows_inv r ds ms xs Hd Hm Hx _ _ _ Hrows)
    as (Hlen & _ & Hdist & _).
  split; [rewrite Hlen; by eapply query_at_most|].
  rewrite Hdist, drop_0. apply Sorted_take. by eapply query_ascending.
Qed.

Lemma similarity_descending (chunks : list ScoredChunk) :
  Forall (λ c, similarity c = round4 (1 - distance c)) chunks →
  Sorted Qle (distance <$> chunks) →
  Sorted (flip Qle) (similarity <$> chunks).
Proof.
  induction chunks as [|c chunks IH]; intros Hform Hsorted; [constructor|].
  inversion Hform as [|?? Hc Hrest]; subst.
  rewrite fmap_cons in Hsorted. inversion Hsorted as [|?? Hs Hhd]; subst.
  rewrite fmap_cons. constructor; [by apply IH|].
  destruct chunks as [|c' chunks]; [constructor|].
  rewrite fmap_cons in Hhd. inversion Hhd; subst.
  inversion Hrest as [|?? Hc' _]; subst.
  rewrite fmap_cons. constructor. unfold flip. rewrite Hc, Hc'.
  apply round4_mono. lra.
Qed.

(** X9. Whatever [search] returns, the similarity of each entry is within
    half a unit of the fourth decimal of one minus its distance, and an
    entry whose distance lies between 0 and 2 has a similarity between -1
    and 1. *)
Theorem search_similarity_accuracy `{Engine} (cl cl' : Client) (name : string)
    (q : list Q) (k : Z) (chunks : list ScoredChunk) :
  search cl name q k = (Ok chunks, cl') →
  Forall (λ c,
    (1 - distance c - (1 # 20000) <= similarity c)%Q
    ∧ (similarity c <= 1 - distance c + (1 # 20000))%Q
    ∧ ((0 <= distance c)%Q → (distance c <= 2)%Q →
       (-1 <= similarity c)%Q ∧ (similarity c <= 1)%Q)) chunks.
Proof.
  intros Hs. apply search_similarity_form in Hs.
  eapply Forall_impl; [exact Hs|]. intros c ->.
  destruct (round4_error (1 - distance c)) as [Hlo Hhi].
  split; [done|]. split; [done|]. intros H0 H2. split.
  - apply (Qle_trans _ (round4 (-1))); [by vm_compute|].
    apply round4_mono. lra.
  - apply (Qle_trans _ (round4 1)); [|by vm_compute].
    apply round4_mono. lra.
Qed.

Lemma search_similarity_accuracy_witness :
  ∃ chunks,
    search (H := exact_engine) Examples.one_paper "research_papers"
      [3 # 5; 4 # 5]%Q 5 = (Ok chunks, Examples.one_paper)
    ∧ similarity <$> chunks = [9692 # 10000]%Q
    ∧ Forall (λ c,
        (1 - distance c - (1 # 20000) <= similarity c)%Q
        ∧ (similarity c <= 1 - distance c + (1 # 20000))%Q
        ∧ ((0 <= distance c)%Q → (distance c <= 2)%Q →
           (-1 <= similarity c)%Q ∧ (similarity c <= 1)%Q)) chunks.
Proof.
  eexists. split; [vm_compute; reflexivity|]. split; [reflexivity|].
  apply (search_similarity_accuracy (H := exact_engine) Examples.one_paper
           Examples.one_paper "research_papers" [3 # 5; 4 # 5]%Q 5).
  vm_compute. reflexivity.
Defined.

Section retrieval.
Context `{EngineLaws, Embedder}.

(** X10. After [set_n_results n], [retrieve] returns at most [n] chunks,
    the most similar first: the similarities never increase along the
    list. *)
Theorem retrieve_most_similar_first (self : Retriever.t) (n : Z)
    (query : string) (w w' : world) (chunks : list ScoredChunk) :
  retrieve (set_n_results self n) query w = (Ok chunks, w') →
  (Z.of_nat (length chunks) ≤ n)%Z
  ∧ Sorted (flip Qle) (similarity <$> chunks).
Proof using Type*.
  intros Hr. apply retrieve_inv in Hr as (_ & (e & _ & Hs) & _).
  simpl in Hs.
  destruct (search_shape _ _ _ _ _ _ Hs) as [Hlen Hsorted].
  split; [done|].
  apply similarity_descending; [by eapply search_similarity_form|done].
Qed.

End retrieval.

Lemma retrieve_most_similar_first_witness :
  ∃ chunks w',
    retrieve (H := exact_engine) (H0 := Examples.east_embedder)
      (set_n_results Examples.retriever 2) "what is attention"
      (Examples.fresh Examples.papers) = (Ok chunks, w')
    ∧ similarity <$> chunks = [8000 # 10000; 6000 # 10000]%Q
    ∧ (Z.of_nat (length chunks) ≤ 2)%Z
    ∧ Sorted (flip Qle) (similarity <$> chunks).
Proof.
  eexists _, _. split; [vm_compute; reflexivity|]. split; [reflexivity|].
  eapply (retrieve_most_similar_first (H := exact_engine)
            (H1 := Examples.east_embedder) Examples.retriever 2
            "what is attention" (Examples.fresh Examples.papers)).
  vm_compute. reflexivity.
Defined.

(** X11. A search is scoped to its collection: it leaves every other
    collection as it was, and its result depends on nothing but the named
    collection, the query and [n_results]. *)
Theorem search_is_scoped `{Engine} (cl : Client) (name : string)
    (q : list Q) (k : Z) :
  (∀ other, other ≠ name → (search cl name q k).2 !! other = cl !! other)
  ∧ (∀ cl2 : Client, cl2 !! name = cl !! name →
       (search cl2 name q k).1 = (search cl name q k).1).
Proof.
  unfold search, create_collection, get_or_create_collection, query. split.
  - intros other Hne. destruct (cl !! name) eqn:E; simpl; [done|].
    by rewrite lookup_insert_ne.
  - intros cl2 Heq. rewrite Heq.
    destruct (cl !! name) eqn:E; simpl.
    + by rewrite Heq, E.
    + by rewrite !lookup_insert_eq.
Qed.

End ScoreFacts.

(** ** From the chunker to the index *)

Module IndexingFacts.
Import Chunker ChunkerLists ChunkerFacts Embedder Indexing Spec VectorStoreFacts.

Lemma pretty_N_char_digit d : is_digit (pretty_N_char d) = true.
Proof. unfold pretty_N_char. by repeat case_match. Qed.

Lemma pretty_N_go_digits x : ∀ s,
  Forall (λ c, is_digit c = true) (chars_of s) →
  Forall (λ c, is_digit c = true) (chars_of (pretty_N_go x s)).
Proof.
  induction (N.lt_wf_0 x) as [x _ IH]. intros s Hs.
  destruct (decide (x = 0)%N) as [->|Hx]; [by rewrite pretty_N_go_0|].
  rewrite pretty_N_go_step by lia.
  apply IH; [apply N.div_lt; lia|].
  constructor; [apply pretty_N_char_digit|done].
Qed.

(** The decimal of a number is made of digits. *)
Lemma pretty_nat_digits (n : nat) :
  Forall (λ c, is_digit c = true) (chars_of (pretty n)).
Proof.
  unfold pretty, pretty_nat, pretty, pretty_N.
  case_decide; [by repeat constructor|].
  apply pretty_N_go_digits. constructor.
Qed.

Lemma chars_of_app a b : chars_of (a +:+ b) = chars_of a ++ chars_of b.
Proof. induction a as [|c a IH]; simpl; [done|]. unfold chars_of in *. simpl. by rewrite IH. Qed.

Lemma chars_of_inj a b : chars_of a = chars_of b → a = b.
Proof.
  intros Heq. rewrite <- (string_of_list_ascii_of_string a),
    <- (string_of_list_ascii_of_string b). unfold chars_of in Heq. by rewrite Heq.
Qed.

(** Two lists that agree up to a first occurrence of [x] agree before it
    and after it. *)
Lemma first_occurrence {A} (x : A) l1 r1 l2 r2 :
  x ∉ l1 → x ∉ l2 → l1 ++ x :: r1 = l2 ++ x :: r2 → l1 = l2 ∧ r1 = r2.
Proof.
  revert l2. induction l1 as [|a l1 IH]; intros [|b l2] H1 H2 Heq; simpl in *.
  - by injection Heq as ->.
  - injection Heq as <- _. exfalso. apply H2. by left.
  - injection Heq as -> _. exfalso. apply H1. by left.
  - injection Heq as -> Heq.
    apply not_elem_of_cons in H1 as [_ H1]. apply not_elem_of_cons in H2 as [_ H2].
    destruct (IH l2 H1 H2 Heq) as [-> ->]. done.
Qed.

(** An id tells its source name and its index. *)
Lemma chunk_id_determines (s1 s2 : string) (i j : nat) :
  s1 +:+ "_chunk_" +:+ pretty i = s2 +:+ "_chunk_" +:+ pretty j →
  s1 = s2 ∧ i = j.
Proof.
  intros Heq. apply (f_equal chars_of) in Heq.
  rewrite !chars_of_app in Heq. apply (f_equal reverse) in Heq.
  rewrite !reverse_app in Heq.
  change (reverse (chars_of "_chunk_"))
    with ("_"%char :: reverse (chars_of "_chunk")) in Heq.
  rewrite <- !app_assoc in Heq. simpl in Heq.
  assert (∀ n : nat, "_"%char ∉ reverse (chars_of (pretty n))) as Hnot.
  { intros n Hin. rewrite elem_of_reverse in Hin.
    pose proof (pretty_nat_digits n) as Hd. rewrite Forall_forall in Hd.
    by specialize (Hd _ Hin). }
  apply first_occurrence in Heq as [Hd Hs]; [|apply Hnot..].
  apply (inj reverse) in Hd. apply chars_of_inj in Hd.
  apply (inj pretty) in Hd.
  injection Hs as Hs.
  apply (inj reverse) in Hs. apply chars_of_inj in Hs. done.
Qed.

(** The ids of one call of [split] are pairwise distinct. *)
Lemma split_ids_distinct (self self' : Chunker.t) (text source_name : string) :
  split self text source_name = Ok self' → NoDup (get_ids_only self').
Proof.
  intros Hs. destruct (split_inv _ _ _ _ Hs) as [_ Hc].
  unfold get_ids_only. rewrite Hc.
  apply NoDup_alt. intros i j x Hi Hj.
  rewrite list_lookup_fmap, list_lookup_imap in Hi.
  rewrite list_lookup_fmap, list_lookup_imap in Hj.
  destruct (splitter self text !! i); [|done].
  destruct (splitter self text !! j); [|done].
  simpl in Hi, Hj. injection Hi as <-. injection Hj as Hj.
  by apply chunk_id_inj in Hj.
Qed.

(** X12. After a successful [split], the three lists handed to the
    embedder and the index line up: each has one entry for each chunk, the
    texts are the pieces of the splitter in their order, the metadata at a
    position records the length of the text at that position, and no id
    occurs twice. *)
Theorem chunk_lists_line_up (self self' : Chunker.t) (text source_name : string) :
  split self text source_name = Ok self' →
  length (get_ids_only self') = get_chunk_count self'
  ∧ length (get_texts_only self') = get_chunk_count self'
  ∧ length (get_metadatas_only self') = get_chunk_count self'
  ∧ get_texts_only self' = splitter self text
  ∧ NoDup (get_ids_only self')
  ∧ (∀ i m t, get_metadatas_only self' !! i = Some m →
       get_texts_only self' !! i = Some t →
       char_count m = String.length t ∧ chunk_index m = i).
Proof.
  intros Hs. pose proof (split_ids_distinct _ _ _ _ Hs) as Hnodup.
  destruct (split_inv _ _ _ _ Hs) as [_ Hc].
  unfold get_ids_only, get_texts_only, get_metadatas_only, get_chunk_count in *.
  rewrite Hc in *. rewrite !length_fmap.
  split; [done|]. split; [done|]. split; [done|]. split.
  { apply list_eq. intros i. rewrite list_lookup_fmap, list_lookup_imap.
    by destruct (splitter self text !! i). }
  split; [done|].
  intros i m t Hm Ht.
  rewrite list_lookup_fmap, list_lookup_imap in Hm.
  rewrite list_lookup_fmap, list_lookup_imap in Ht.
  destruct (splitter self text !! i); [|done].
  simpl in Hm, Ht. injection Hm as <-. injection Ht as <-. done.
Qed.

Lemma chunk_lists_line_up_witness :
  ∃ self',
    split {| chunk_size := 40; chunk_overlap := 10; chunks := [];
             splitter := TextSplitter.split_text 40 10 separators |}
      "Attention is all you need. The encoder maps an input sequence."
      "paper" = Ok self'
    ∧ get_ids_only self' = ["paper_chunk_0"; "paper_chunk_1"]
    ∧ NoDup (get_ids_only self')
    ∧ length (get_texts_only self') = get_chunk_count self'.
Proof.
  eexists. split; [reflexivity|]. split; [vm_compute; reflexivity|].
  destruct (chunk_lists_line_up
              {| chunk_size := 40; chunk_overlap := 10; chunks := [];
                 splitter := TextSplitter.split_text 40 10 separators |} _
              "Attention is all you need. The encoder maps an input sequence."
              "paper" eq_refl) as (_ & Hlen & _ & _ & Hnodup & _).
  split; [exact Hnodup|exact Hlen].
Defined.

(** X13. Chunk ids never collide across papers: two chunks made by any two
    calls of [split] have the same id only if the calls had the same
    source name and the chunks the same index. *)
Theorem chunk_ids_never_collide (self1 self1' self2 self2' : Chunker.t)
    (text1 text2 source1 source2 : string) (c1 c2 : Chunk) :
  split self1 text1 source1 = Ok self1' →
  split self2 text2 source2 = Ok self2' →
  c1 ∈ get_chunks self1' → c2 ∈ get_chunks self2' →
  id c1 = id c2 →
  source1 = source2 ∧ chunk_index (metadata c1) = chunk_index (metadata c2).
Proof.
  intros Hs1 Hs2 Hc1 Hc2 Hid.
  destruct (split_inv _ _ _ _ Hs1) as [_ H1].
  destruct (split_inv _ _ _ _ Hs2) as [_ H2].
  unfold get_chunks in *. rewrite H1 in Hc1. rewrite H2 in Hc2.
  apply list_elem_of_lookup in Hc1 as [i Hi].
  apply list_elem_of_lookup in Hc2 as [j Hj].
  rewrite list_lookup_imap in Hi. rewrite list_lookup_imap in Hj.
  destruct (splitter self1 text1 !! i); [|done].
  destruct (splitter self2 text2 !! j); [|done].
  simpl in Hi, Hj. injection Hi as <-. injection Hj as <-.
  simpl in *. by apply chunk_id_determines.
Qed.

Lemma chunk_ids_never_collide_witness :
  ∃ self' c,
    split Examples.small_chunker Examples.two_sentences "paper" = Ok self'
    ∧ get_chunks self' !! 1 = Some c
    ∧ id c = "paper_chunk_1"
    ∧ "paper" = "paper"
    ∧ chunk_index (metadata c) = chunk_index (metadata c).
Proof.
  eexists _, _. split; [reflexivity|]. split; [reflexivity|].
  split; [reflexivity|].
  eapply (chunk_ids_never_collide Examples.small_chunker _
            Examples.small_chunker _ Examples.two_sentences
            Examples.two_sentences "paper" "paper");
    [reflexivity|reflexivity| | |reflexivity];
    apply list_elem_of_lookup; exists 1; reflexivity.
Defined.

(** The reference adder keeps the laws. *)
#[local] Instance checked_append_laws : AdderLaws (H := checked_append).
Proof.
  split.
  - intros c ids embeddings documents metadatas dim
      Hne He Hd Hm Hnd Hfresh Hdim Hes Hits Hms.
    assert (match col_items c, embeddings with
            | it :: _, _ => length (item_embedding it)
            | [], e :: _ => length e
            | [], [] => 0
            end = dim) as Hdim'.
    { destruct (col_items c) as [|it its] eqn:E.
      - destruct embeddings as [|e es]; [by destruct ids|]. apply Hes. by left.
      - apply Hits. by left. }
    unfold engine_add, checked_append.
    rewrite He, Hd, Hm, !Nat.eqb_refl. cbn [andb negb].
    rewrite bool_decide_false by done.
    rewrite bool_decide_true by done. cbn [negb].
    assert (forallb (λ it, negb (bool_decide (item_id it ∈ ids)))
              (col_items c) = true) as ->.
    { apply forallb_forall. intros it Hin. apply list_elem_of_In in Hin.
      rewrite bool_decide_false; [done|by apply Hfresh]. }
    cbn [negb]. cbv zeta. rewrite Hdim'.
    assert (forallb (λ e, (length e =? dim)%nat) embeddings = true) as ->.
    { apply forallb_forall. intros e Hin. apply list_elem_of_In in Hin.
      apply Nat.eqb_eq. by apply Hes. }
    assert (forallb (λ it, (length (item_embedding it) =? dim)%nat)
              (col_items c) = true) as ->.
    { apply forallb_forall. intros it Hin. apply list_elem_of_In in Hin.
      apply Nat.eqb_eq. by apply Hits. }
    cbn [andb negb].
    destruct (Nat.eqb_spec dim 0) as [->|_]; [lia|].
    assert (forallb (λ m, negb (bool_decide (m = ∅))) metadatas = true) as ->.
    { apply forallb_forall. intros m Hin. apply list_elem_of_In in Hin.
      rewrite bool_decide_false; [done|by apply Hms]. }
    done.
  - intros c ids embeddings documents metadatas Hne.
    unfold engine_add, checked_append.
    destruct (Nat.eqb_spec (length embeddings) (length ids));
      destruct (Nat.eqb_spec (length documents) (length ids));
      destruct (Nat.eqb_spec (length metadatas) (length ids));
      cbn [andb negb]; try by eexists.
    exfalso. destruct Hne as [?|[?|?]]; done.
Qed.

Lemma length_new_items ids : ∀ embeddings documents metadatas,
  length embeddings = length ids → length documents = length ids →
  length metadatas = length ids →
  length (new_items ids embeddings documents metadatas) = length ids.
Proof.
  induction ids as [|i ids IH]; intros [|e es] [|d ds] [|m ms] He Hd Hm;
    simpl in *; try done.
  f_equal. apply IH; lia.
Qed.

Lemma metadata_dict_not_empty (m : ChunkMetadata) : metadata_dict m ≠ ∅.
Proof. unfold metadata_dict. apply insert_non_empty. Qed.

Section adding.
Context `{AdderLaws}.

(** What a valid [add_chunks] leaves behind. *)
Lemma add_chunks_appends (cl : Client) (collection_name : string)
    (ids : list string) (embeddings : list (list Q)) (texts : list string)
    (metadatas : list (gmap string mvalue)) (dim : nat) :
  ids ≠ [] →
  length embeddings = length ids →
  length texts = length ids →
  length metadatas = length ids →
  NoDup ids →
  (0 < dim)%nat →
  (∀ e, e ∈ embeddings → length e = dim) →
  (∀ m, m ∈ metadatas → m ≠ ∅) →
  (∀ c it, cl !! collection_name = Some c → it ∈ col_items c →
     (item_id it ∉ ids) ∧ length (item_embedding it) = dim) →
  ∃ cl' c',
    add_chunks cl collection_name ids embeddings texts metadatas
    = (Ok collection_name, cl')
    ∧ cl' !! collection_name = Some c'
    ∧ col_items c' = from_option col_items [] (cl !! collection_name)
                     ++ new_items ids embeddings texts metadatas
    ∧ get_collection_count cl' collection_name
      = (get_collection_count cl collection_name + Z.of_nat (length ids))%Z
    ∧ collection_exists cl' collection_name = true
    ∧ (∀ other, other ≠ collection_name → cl' !! other = cl !! other).
Proof using Type*.
  intros Hne He Ht Hm Hnd Hdim Hes Hms Hold.
  unfold add_chunks, create_collection, get_or_create_collection, add.
  destruct (cl !! collection_name) as [c|] eqn:E.
  - rewrite E.
    rewrite (add_appends c ids embeddings texts metadatas dim); try done;
      [|intros it Hit; by apply (Hold c it)..].
    cbn [mbind result_bind rbind].
    eexists _, _. split; [reflexivity|].
    split; [apply lookup_insert_eq|]. split; [done|].
    unfold get_collection_count, collection_exists, get_collection, count.
    rewrite lookup_insert_eq, E. cbn [mbind result_bind rbind].
    rewrite lookup_insert_eq, E. cbn [col_items].
    rewrite length_app, length_new_items by done.
    split; [lia|]. split.
    + apply Z.gtb_lt. destruct ids; [done|]. simpl. lia.
    + intros other Hother. by rewrite lookup_insert_ne.
  - rewrite lookup_insert_eq.
    rewrite (add_appends _ ids embeddings texts metadatas dim); try done;
      [|intros it Hit; by apply elem_of_nil in Hit..].
    cbn [mbind result_bind rbind].
    eexists _, _. split; [reflexivity|].
    split; [apply lookup_insert_eq|]. split; [done|].
    unfold get_collection_count, collection_exists, get_collection, count.
    rewrite lookup_insert_eq, E. cbn [mbind result_bind rbind].
    rewrite lookup_insert_eq. cbn [col_items app].
    rewrite length_new_items by done.
    split; [lia|]. split.
    + apply Z.gtb_lt. destruct ids; [done|]. simpl. lia.
    + intros other Hother. by rewrite !lookup_insert_ne.
Qed.

(** X14. [add_chunks] with parallel lists of distinct ids that the
    collection does not hold yet, and of embeddings of its dimension,
    returns the collection: afterwards the collection holds what it held
    followed by the new items in the order given, its count has grown by
    the number of ids, it exists with data, and every other collection is
    as it was. *)
Theorem add_chunks_grows (cl : Client) (collection_name : string)
    (ids : list string) (embeddings : list (list Q)) (texts : list string)
    (metadatas : list (gmap string mvalue)) (dim : nat) :
  ids ≠ [] →
  length embeddings = length ids →
  length texts = length ids →
  length metadatas = length ids →
  NoDup ids →
  (0 < dim)%nat →
  (∀ e, e ∈ embeddings → length e = dim) →
  (∀ m, m ∈ metadatas → m ≠ ∅) →
  (∀ c it, cl !! collection_name = Some c → it ∈ col_items c →
     (item_id it ∉ ids) ∧ length (item_embedding it) = dim) →
  ∃ cl' c',
    add_chunks cl collection_name ids embeddings texts metadatas
    = (Ok collection_name, cl')
    ∧ cl' !! collection_name = Some c'
    ∧ col_items c' = from_option col_items [] (cl !! collection_name)
                     ++ new_items ids embeddings texts metadatas
    ∧ get_collection_count cl' collection_name
      = (get_collection_count cl collection_name + Z.of_nat (length ids))%Z
    ∧ collection_exists cl' collection_name = true
    ∧ (∀ other, other ≠ collection_name → cl' !! other = cl !! other).
Proof using Type*. apply add_chunks_appends. Qed.

(** X15. [add_chunks] with lists of different lengths raises, and leaves
    the collection behind as [create_collection] made it: nothing is
    stored, but a collection that was missing now exists, empty. *)
Theorem add_chunks_unequal_lists (cl : Client) (collection_name : string)
    (ids : list string) (embeddings : list (list Q)) (texts : list string)
    (metadatas : list (gmap string mvalue)) :
  length embeddings ≠ length ids ∨ length texts ≠ length ids
  ∨ length metadatas ≠ length ids →
  ∃ e cl',
    add_chunks cl collection_name ids embeddings texts metadatas
    = (Raise e, cl')
    ∧ cl' = (create_collection cl collection_name).1
    ∧ get_collection_count cl' collection_name
      = get_collection_count cl collection_name
    ∧ (cl !! collection_name = None →
       cl' !! collection_name
       = Some {| col_metadata := cosine_space; col_items := [] |}
       ∧ collection_exists cl' collection_name = false).
Proof using Type*.
  intros Hne.
  unfold add_chunks, create_collection, get_or_create_collection, add.
  destruct (cl !! collection_name) as [c|] eqn:E.
  - rewrite E.
    destruct (add_refuses_unequal c ids embeddings texts metadatas Hne)
      as [e ->].
    cbn [mbind result_bind rbind]. eexists _, _. split; [reflexivity|].
    split; [done|]. split; [done|]. done.
  - rewrite lookup_insert_eq.
    destruct (add_refuses_unequal {| col_metadata := cosine_space;
                                     col_items := [] |}
                ids embeddings texts metadatas Hne) as [e ->].
    cbn [mbind result_bind rbind]. eexists _, _. split; [reflexivity|].
    split; [done|].
    unfold get_collection_count, collection_exists, get_collection, count.
    rewrite lookup_insert_eq, E. cbn [mbind result_bind rbind].
    rewrite lookup_insert_eq. done.
Qed.

End adding.

Ltac among :=
  repeat match goal with
         | H : _ ∈ _ :: _ |- _ => apply elem_of_cons in H as [->|H]
         | H : _ ∈ [] |- _ => by apply elem_of_nil in H
         end.

Lemma add_chunks_grows_witness :
  ∃ cl' c',
    add_chunks (H := checked_append) Examples.papers "research_papers"
      ["d_chunk_0"; "d_chunk_1"] [[1; 0]; [0; 1]]%Q ["x"; "y"]
      [{[ "source" := MStr "d" ]}; {[ "source" := MStr "d" ]}]
    = (Ok "research_papers", cl')
    ∧ cl' !! "research_papers" = Some c'
    ∧ col_items c'
      = from_option col_items [] (Examples.papers !! "research_papers")
        ++ new_items ["d_chunk_0"; "d_chunk_1"] [[1; 0]; [0; 1]]%Q ["x"; "y"]
             [{[ "source" := MStr "d" ]}; {[ "source" := MStr "d" ]}]
    ∧ get_collection_count cl' "research_papers"
      = (get_collection_count Examples.papers "research_papers"
         + Z.of_nat (length ["d_chunk_0"; "d_chunk_1"]))%Z
    ∧ collection_exists cl' "research_papers" = true
    ∧ (∀ other, other ≠ "research_papers" →
         cl' !! other = Examples.papers !! other).
Proof.
  apply (add_chunks_grows (H := checked_append) Examples.papers
           "research_papers" _ _ _ _ 2).
  - done.
  - reflexivity.
  - reflexivity.
  - reflexivity.
  - apply (bool_decide_unpack _). reflexivity.
  - lia.
  - intros e He. among; reflexivity.
  - intros m Hm. among; apply insert_non_empty.
  - intros c it Hc Hit. unfold Examples.papers in Hc.
    rewrite lookup_singleton_eq in Hc. injection Hc as <-.
    simpl in Hit. among; (split; [|reflexivity]);
      apply (bool_decide_unpack _); reflexivity.
Defined.

Lemma add_chunks_unequal_lists_witness :
  ∃ e cl',
    add_chunks (H := checked_append) ∅ "research_papers"
      ["d_chunk_0"; "d_chunk_1"] [[1; 0]]%Q ["x"; "y"]
      [{[ "source" := MStr "d" ]}; {[ "source" := MStr "d" ]}]
    = (Raise e, cl')
    ∧ cl' = (create_collection ∅ "research_papers").1
    ∧ get_collection_count cl' "research_papers"
      = get_collection_count ∅ "research_papers"
    ∧ ((∅ : Client) !! "research_papers" = None →
       cl' !! "research_papers"
       = Some {| col_metadata := cosine_space; col_items := [] |}
       ∧ collection_exists cl' "research_papers" = false).
Proof.
  apply (add_chunks_unequal_lists (H := checked_append)).
  left. simpl. lia.
Defined.

Section pipeline.
Context `{SentenceModel, AdderLaws}.

(** X16. The indexing steps of the upload page, one after the other: when
    [split] has made the chunks and [embed_texts] has returned one
    embedding of the dimension of the collection for each chunk text,
    [add_chunks] on the ids, texts and metadata of the chunker succeeds,
    provided the collection holds none of these ids; the count of the
    collection grows by the number of chunks. *)
Theorem index_paper (self self' : Chunker.t) (text source_name : string)
    (cl : Client) (collection_name : string) (embeddings : list (list Q))
    (dim : nat) :
  split self text source_name = Ok self' →
  embed_texts (get_texts_only self') = Ok embeddings →
  length embeddings = length (get_texts_only self') →
  (0 < dim)%nat →
  (∀ e, e ∈ embeddings → length e = dim) →
  (∀ c it, cl !! collection_name = Some c → it ∈ col_items c →
     (item_id it ∉ get_ids_only self') ∧ length (item_embedding it) = dim) →
  ∃ cl',
    add_chunks cl collection_name (get_ids_only self') embeddings
      (get_texts_only self') (metadata_dict <$> get_metadatas_only self')
    = (Ok collection_name, cl')
    ∧ get_collection_count cl' collection_name
      = (get_collection_count cl collection_name
         + Z.of_nat (get_chunk_count self'))%Z
    ∧ collection_exists cl' collection_name = true.
Proof using Type*.
  intros Hs He Hlen Hdim Hes Hold.
  assert (get_texts_only self' ≠ []) as Hne.
  { intros Hnil. rewrite Hnil in He. done. }
  unfold get_texts_only, get_ids_only, get_metadatas_only, get_chunk_count in *.
  rewrite length_fmap in Hlen.
  destruct (add_chunks_appends cl collection_name (id <$> chunks self')
              embeddings (Chunker.text <$> chunks self')
              (metadata_dict <$> (metadata <$> chunks self')) dim)
    as (cl' & c' & Hadd & _ & _ & Hcount & Hex & _).
  - intros Hnil. apply Hne. apply fmap_nil_inv in Hnil. by rewrite Hnil.
  - by rewrite length_fmap.
  - by rewrite !length_fmap.
  - by rewrite !length_fmap.
  - by apply (split_ids_distinct self self' text source_name).
  - done.
  - done.
  - intros m Hm. apply list_elem_of_fmap in Hm as (x & -> & _).
    apply metadata_dict_not_empty.
  - done.
  - exists cl'. rewrite length_fmap in Hcount. done.
Qed.

End pipeline.

Lemma index_paper_witness :
  ∃ self' embeddings cl',
    split Examples.small_chunker Examples.two_sentences "paper" = Ok self'
    ∧ embed_texts (H := Examples.length_model) (get_texts_only self')
      = Ok embeddings
    ∧ add_chunks (H := checked_append) ∅ "research_papers"
        (get_ids_only self') embeddings (get_texts_only self')
        (metadata_dict <$> get_metadatas_only self')
      = (Ok "research_papers", cl')
    ∧ get_collection_count cl' "research_papers"
      = (get_collection_count ∅ "research_papers"
         + Z.of_nat (get_chunk_count self'))%Z
    ∧ collection_exists cl' "research_papers" = true.
Proof.
  eexists _, [[25; 1]; [37; 1]]%Q.
  destruct (index_paper (H := Examples.length_model) (H0 := checked_append)
              Examples.small_chunker _ Examples.two_sentences "paper"
              ∅ "research_papers" [[25; 1]; [37; 1]]%Q 2 eq_refl)
    as (cl' & Hadd & Hrest).
  - vm_compute. reflexivity.
  - vm_compute. reflexivity.
  - lia.
  - intros e He. among; reflexivity.
  - intros c it Hc. by rewrite lookup_empty in Hc.
  - exists cl'. split; [reflexivity|]. split; [vm_compute; reflexivity|].
    split; [exact Hadd|exact Hrest].
Defined.

End IndexingFacts.

(** ** Strings *)

Module StringFacts.
Import Spec.

#[local] Arguments append : simpl nomatch.

Lemma append_assoc (a b c : string) : (a +:+ b) +:+ c = a +:+ (b +:+ c).
Proof. induction a as [|x a IH]; cbn [append]; [done|]. by f_equal. Qed.

Lemma append_nil_r (a : string) : a +:+ EmptyString = a.
Proof. induction a as [|x a IH]; cbn [append]; [done|]. by f_equal. Qed.

Lemma rstrip_cons c s d r :
  rstrip s = String d r → rstrip (String c s) = String c (String d r).
Proof. intros Hs. simpl. by rewrite Hs. Qed.

Lemma rstrip_idempotent s : rstrip (rstrip s) = rstrip s.
Proof.
  induction s as [|c s IH]; [done|].
  destruct (rstrip s) as [|d r] eqn:E.
  - simpl. rewrite E. destruct (is_space c) eqn:Hc; [done|].
    simpl. by rewrite Hc.
  - rewrite (rstrip_cons c s d r E). by apply rstrip_cons.
Qed.

Lemma rstrip_head c s :
  is_space c = false → ∃ s', rstrip (String c s) = String c s'.
Proof.
  intros Hc. cbn [rstrip]. destruct (rstrip s); [rewrite Hc|]; eauto.
Qed.

Lemma lstrip_head s :
  lstrip s = EmptyString ∨ ∃ c s', lstrip s = String c s' ∧ is_space c = false.
Proof.
  induction s as [|c s IH]; [by left|]. simpl.
  destruct (is_space c) eqn:Hc; [done|]. right. eauto.
Qed.

(** Stripping twice is stripping once. *)
Lemma strip_idempotent s : strip (strip s) = strip s.
Proof.
  unfold strip. destruct (lstrip_head s) as [->|(c & s' & -> & Hc)]; [done|].
  destruct (rstrip_head c s' Hc) as [r Hr]. rewrite Hr.
  cbn [lstrip]. rewrite Hc, <- Hr. apply rstrip_idempotent.
Qed.

(** [rstrip] keeps what stands before a character that is no space. *)
Lemma rstrip_keeps p : ∀ c s,
  is_space c = false → ∃ s', rstrip (p +:+ String c s) = p +:+ String c s'.
Proof.
  induction p as [|a p IH]; intros c s Hc.
  - by apply rstrip_head.
  - cbn [append rstrip]. destruct (IH c s Hc) as [s' ->].
    exists s'. by destruct p.
Qed.

End StringFacts.

(** ** The PDF loader *)

Module PDFLoaderFacts.
Import PDFLoader Spec StringFacts.

#[local] Arguments append : simpl nomatch.

Lemma line_feeds_length n : String.length (line_feeds n) = n.
Proof. induction n; simpl; congruence. Qed.

Lemma squeeze_line_feeds_length s : ∀ run,
  String.length (squeeze_line_feeds run s) ≤ run + String.length s.
Proof.
  induction s as [|c s IH]; intros run; cbn [squeeze_line_feeds].
  - rewrite line_feeds_length. destruct (Nat.leb_spec 3 run); simpl; lia.
  - case_bool_decide.
    + specialize (IH (S run)). simpl. lia.
    + rewrite TextSplitterFacts.length_app, line_feeds_length.
      specialize (IH 0). destruct (Nat.leb_spec 3 run); simpl; lia.
Qed.

Lemma drop_hyphen_breaks_bound n : ∀ s,
  String.length s ≤ n →
  String.length (drop_hyphen_breaks s) ≤ String.length s.
Proof.
  induction n as [|n IH]; intros [|c s] Hn; simpl in Hn; try done; [lia|].
  cbn [drop_hyphen_breaks]. case_bool_decide.
  - destruct s as [|c' s']; [done|]. case_bool_decide.
    + specialize (IH s'). simpl in *. lia.
    + specialize (IH (String c' s')). simpl in *. lia.
  - specialize (IH s). simpl in *. lia.
Qed.

Lemma drop_hyphen_breaks_length s :
  String.length (drop_hyphen_breaks s) ≤ String.length s.
Proof. by apply (drop_hyphen_breaks_bound (String.length s)). Qed.

Lemma join_broken_lines_length s : ∀ prev,
  String.length (join_broken_lines prev s) = String.length s.
Proof. induction s as [|c s IH]; intros prev; simpl; [done|]. by rewrite IH. Qed.

(** The cleaning steps only remove or replace characters. *)
Lemma clean_steps_length raw :
  String.length (clean_steps raw) ≤ String.length raw.
Proof.
  unfold clean_steps, utf8_round_trip.
  etrans; [apply TextSplitterFacts.strip_length|].
  rewrite join_broken_lines_length.
  etrans; [apply drop_hyphen_breaks_length|].
  apply (squeeze_line_feeds_length raw 0).
Qed.

(** What the steps leave of a text that holds no line feed. *)
Lemma squeeze_line_feeds_keeps p : ∀ s,
  Forall (λ c, c ≠ line_feed) (chars_of p) →
  squeeze_line_feeds 0 (p +:+ s) = p +:+ squeeze_line_feeds 0 s.
Proof.
  induction p as [|c p IH]; intros s Hp; [done|].
  inversion Hp as [|?? Hc Hp']; subst.
  cbn [append squeeze_line_feeds]. rewrite bool_decide_false by done.
  cbn. f_equal. by apply IH.
Qed.

Lemma squeeze_line_feeds_run s : ∀ run,
  ∃ s', squeeze_line_feeds (S run) s = String line_feed s'.
Proof.
  induction s as [|c s IH]; intros run; cbn [squeeze_line_feeds].
  - destruct (3 <=? S run); cbn; eauto.
  - case_bool_decide; [apply IH|]. destruct (3 <=? S run); cbn; eauto.
Qed.

Lemma drop_hyphen_breaks_keeps p : ∀ s,
  Forall (λ c, c ≠ line_feed) (chars_of p) →
  drop_hyphen_breaks (p +:+ String "-" (String line_feed s))
  = p +:+ drop_hyphen_breaks s.
Proof.
  induction p as [|c p IH]; intros s Hp.
  - cbn [append drop_hyphen_breaks]. by rewrite !bool_decide_true.
  - inversion Hp as [|?? Hc Hp']; subst.
    specialize (IH s Hp'). cbn [append drop_hyphen_breaks].
    case_bool_decide; [|by f_equal].
    destruct p as [|c' p].
    + cbn [append] in *. rewrite bool_decide_false by done. by f_equal.
    + inversion Hp' as [|?? Hc' _]; subst. cbn [append] in *.
      rewrite bool_decide_false by done. by f_equal.
Qed.

Lemma join_broken_lines_keeps p : ∀ prev s,
  Forall (λ c, c ≠ line_feed) (chars_of p) →
  ∃ s', join_broken_lines prev (p +:+ s) = p +:+ s'.
Proof.
  induction p as [|c p IH]; intros prev s Hp; [by eexists|].
  inversion Hp as [|?? Hc Hp']; subst.
  cbn [append join_broken_lines]. rewrite bool_decide_false by done.
  cbn [andb]. destruct (IH (Some c) s Hp') as [s' ->]. by eexists.
Qed.

(** What [clean] makes of a block that opens with a line feed and a
    marker: the marker stays, but for the dash and the line feed that
    close it. *)
Lemma clean_steps_keeps (m rest : string) :
  Forall (λ c, c ≠ line_feed) (chars_of m) →
  ∃ s, clean_steps (String line_feed
                      (String "-" (m +:+ "-")
                       +:+ String "-" (String line_feed rest)))
       = String "-" (m +:+ "-") +:+ s.
Proof.
  intros Hm.
  assert (Forall (λ c, c ≠ line_feed) (chars_of (String "-" (m +:+ "-"))))
    as HM.
  { constructor; [done|]. fold (chars_of (m +:+ "-")).
    rewrite IndexingFacts.chars_of_app. apply Forall_app. split; [done|].
    by repeat constructor. }
  unfold clean_steps, utf8_round_trip.
  set (M := String "-" (m +:+ "-")) in *.
  assert (squeeze_line_feeds 0
            (String line_feed (M +:+ String "-" (String line_feed rest)))
          = String line_feed (M +:+ String "-" (squeeze_line_feeds 1 rest)))
    as ->.
  { unfold M. cbn [append squeeze_line_feeds].
    rewrite bool_decide_true by done. rewrite bool_decide_false by done.
    change (line_feeds (if 3 <=? 1 then 2 else 1))
      with (String line_feed EmptyString).
    cbn [append]. do 2 f_equal.
    rewrite squeeze_line_feeds_keeps by (by inversion HM).
    by f_equal. }
  destruct (squeeze_line_feeds_run rest 0) as [s1 ->].
  assert (drop_hyphen_breaks
            (String line_feed (M +:+ String "-" (String line_feed s1)))
          = String line_feed (M +:+ drop_hyphen_breaks s1)) as ->.
  { cbn [drop_hyphen_breaks]. rewrite bool_decide_false by done.
    f_equal. by apply drop_hyphen_breaks_keeps. }
  assert (∃ s3, join_broken_lines None
                  (String line_feed (M +:+ drop_hyphen_breaks s1))
                = String line_feed (M +:+ s3)) as [s3 ->].
  { unfold M at 1. cbn [append join_broken_lines].
    rewrite bool_decide_true by done. cbn.
    fold (m +:+ "-" +:+ drop_hyphen_breaks s1).
    destruct (join_broken_lines_keeps M (Some line_feed)
                (drop_hyphen_breaks s1) HM) as [s3 Hs3].
    exists s3. f_equal. exact Hs3. }
  unfold strip. unfold M. cbn [lstrip append].
  change (is_space line_feed) with true. change (is_space "-") with false.
  cbn match.
  replace (String "-" ((m +:+ "-") +:+ s3))
    with (String "-" m +:+ String "-" s3)
    by (cbn [append]; by rewrite append_assoc).
  destruct (rstrip_keeps (String "-" m) "-" s3 eq_refl) as [s' ->].
  exists s'. cbn [append]. by rewrite append_assoc.
Qed.

Lemma kept_marker_shape (n : nat) :
  kept_marker n = String "-" (("-- PAGE " +:+ pretty n +:+ " -") +:+ "-").
Proof.
  unfold kept_marker. rewrite !append_assoc. reflexivity.
Qed.

Lemma digit_not_line_feed c : is_digit c = true → c ≠ line_feed.
Proof. by intros Hd ->. Qed.

Lemma page_block_shape (k : nat) (t tail : string) :
  page_block k t +:+ tail
  = String line_feed
      (kept_marker (k + 1) +:+ String "-" (String line_feed (t +:+ tail))).
Proof.
  unfold page_block, kept_marker, nl. rewrite !append_assoc. reflexivity.
Qed.

(** The clean text of a raw text that opens with the block of page
    [k + 1] opens with what is kept of its marker. *)
Lemma clean_steps_page_block (k : nat) (t tail : string) :
  ∃ s, clean_steps (page_block k t +:+ tail) = kept_marker (k + 1) +:+ s.
Proof.
  rewrite page_block_shape, kept_marker_shape.
  apply clean_steps_keeps.
  rewrite !IndexingFacts.chars_of_app. rewrite !Forall_app.
  split; [by repeat constructor|]. split; [|by repeat constructor].
  eapply Forall_impl; [apply IndexingFacts.pretty_nat_digits|].
  intros c. apply digit_not_line_feed.
Qed.

Lemma pages_text_blank pages : ∀ n,
  Forall blank pages → pages_text n pages = [].
Proof.
  induction pages as [|p pages IH]; intros n Hall; [done|].
  inversion Hall as [|?? Hp Hps]; subst. cbn [pages_text].
  rewrite (proj2 (PyFacts.truthy_strip p)) by done. by apply IH.
Qed.

Lemma pages_text_first pages : ∀ n,
  Exists (λ t, ¬ blank t) pages →
  ∃ k t rest,
    pages !! k = Some t ∧ ¬ blank t ∧ Forall blank (take k pages)
    ∧ pages_text n pages = page_block (n + k) t :: rest.
Proof.
  induction pages as [|p pages IH]; intros n Hex; [by inversion Hex|].
  cbn [pages_text]. destruct (truthy (strip p)) eqn:E.
  - exists 0, p. eexists. rewrite Nat.add_0_r.
    split; [done|]. split; [by apply TranslatorFacts.not_blank|].
    split; [constructor|done].
  - apply PyFacts.truthy_strip in E.
    inversion Hex as [?? Hp|?? Hps]; subst; [done|].
    destruct (IH (S n) Hps) as (k & t & rest & Hk & Ht & Hb & Hpt).
    exists (S k), t, rest. replace (n + S k) with (S n + k) by lia.
    split; [done|]. split; [done|]. split; [|done].
    cbn [take]. by constructor.
Qed.

Lemma join_head sep b rest : ∃ tail, join sep (b :: rest) = b +:+ tail.
Proof.
  destruct rest as [|b' rest].
  - exists EmptyString. simpl. by rewrite append_nil_r.
  - by eexists.
Qed.

Lemma starts_with_not_blank c p s :
  is_space c = false → starts_with (String c p) s → ¬ blank s.
Proof.
  intros Hc [rest ->] Hb. inversion Hb as [|?? Hc' _]; subst. congruence.
Qed.

(** X17. A document with no page of text, be it empty or of blank pages
    only, passes [extract_text] with an empty raw text, and [clean] then
    raises the [RuntimeError] that asks for [extract_text]. *)
Theorem blank_document_is_not_cleaned (self : PDFLoader.t) (doc : Document) :
  document self = Some doc →
  Forall blank (doc_pages doc) →
  ∃ self',
    extract_text self = Return self'
    ∧ raw_text self' = EmptyString
    ∧ clean self' = Throw (RuntimeError "Call extract_text() before clean()").
Proof.
  intros Hdoc Hall. unfold extract_text. rewrite Hdoc.
  eexists. split; [reflexivity|]. unfold clean. cbn [raw_text].
  by rewrite pages_text_blank.
Qed.

Lemma blank_document_is_not_cleaned_witness :
  ∃ self',
    extract_text (Examples.opened [" "; EmptyString]) = Return self'
    ∧ raw_text self' = EmptyString
    ∧ clean self' = Throw (RuntimeError "Call extract_text() before clean()").
Proof.
  apply (blank_document_is_not_cleaned (Examples.opened [" "; EmptyString])
           {| doc_metadata := ∅; doc_pages := [" "; EmptyString] |}).
  - reflexivity.
  - repeat constructor.
Defined.

(** X18. A document with a page of text passes [extract_text] and
    [clean]; the clean text opens with the marker of the first page that
    is not blank, short of the dash and the line feed that closed it, so it
    is not blank and [Chunker.split] accepts it. *)
Theorem first_page_marker_is_kept (self : PDFLoader.t) (doc : Document) :
  document self = Some doc →
  Exists (λ t, ¬ blank t) (doc_pages doc) →
  ∃ self1 self2 k t,
    extract_text self = Return self1
    ∧ clean self1 = Return self2
    ∧ doc_pages doc !! k = Some t ∧ ¬ blank t
    ∧ Forall blank (take k (doc_pages doc))
    ∧ starts_with (kept_marker (k + 1)) (get_text self2)
    ∧ ¬ blank (get_text self2)
    ∧ ∀ (chunker : Chunker.t) source_name,
        ∃ chunker',
          Chunker.split chunker (get_text self2) source_name = Ok chunker'.
Proof.
  intros Hdoc Hex. unfold extract_text. rewrite Hdoc.
  destruct (pages_text_first _ 0 Hex) as (k & t & rest & Hk & Ht & Hb & Hpt).
  destruct (join_head nl (page_block k t) rest) as [tail Hj].
  destruct (clean_steps_page_block k t tail) as [s Hs].
  eexists _, _, k, t. split; [reflexivity|].
  unfold clean. cbn [raw_text]. rewrite Hpt. cbn [Nat.add]. rewrite Hj.
  assert (truthy (page_block k t +:+ tail) = true) as -> by done.
  cbn [negb]. split; [reflexivity|].
  split; [done|]. split; [done|]. split; [done|].
  unfold get_text. cbn [clean_text]. rewrite Hs.
  assert (¬ blank (kept_marker (k + 1) +:+ s)) as Hnb.
  { apply (starts_with_not_blank "-" ("-- PAGE " +:+ pretty (k + 1) +:+ " --"));
      [done|]. by exists s. }
  split; [by exists s|]. split; [done|].
  intros chunker source_name. unfold Chunker.split.
  apply TranslatorFacts.not_blank in Hnb. rewrite Hnb.
  destruct (kept_marker (k + 1) +:+ s) eqn:E; [done|]. by eexists.
Qed.

Lemma first_page_marker_is_kept_witness :
  ∃ self1 self2 k t,
    extract_text (Examples.opened [" "; "Attention is all you need."])
    = Return self1
    ∧ clean self1 = Return self2
    ∧ [" "; "Attention is all you need."] !! k = Some t ∧ ¬ blank t
    ∧ Forall blank (take k [" "; "Attention is all you need."])
    ∧ starts_with (kept_marker (k + 1)) (get_text self2)
    ∧ ¬ blank (get_text self2)
    ∧ ∀ (chunker : Chunker.t) source_name,
        ∃ chunker',
          Chunker.split chunker (get_text self2) source_name = Ok chunker'.
Proof.
  apply (first_page_marker_is_kept
           (Examples.opened [" "; "Attention is all you need."])
           {| doc_metadata := ∅;
              doc_pages := [" "; "Attention is all you need."] |}).
  - reflexivity.
  - apply Exists_cons_tl, Exists_cons_hd.
    apply TranslatorFacts.not_blank. reflexivity.
Defined.

(** X19. [clean] only removes or replaces characters: the clean text is
    never longer than the raw text, it has no whitespace at either end,
    and the raw text is kept as it was. *)
Theorem clean_only_removes (self self' : PDFLoader.t) :
  clean self = Return self' →
  String.length (get_text self') ≤ String.length (raw_text self)
  ∧ strip (get_text self') = get_text self'
  ∧ raw_text self' = raw_text self.
Proof.
  unfold clean. destruct (truthy (raw_text self)); [|done].
  intros [= <-]. unfold get_text. cbn [clean_text raw_text].
  split; [apply clean_steps_length|]. split; [|done].
  unfold clean_steps. apply strip_idempotent.
Qed.

Lemma clean_only_removes_witness :
  ∃ self1 self2,
    extract_text (Examples.opened ["Trans-" +:+ nl +:+ "former" +:+ nl +:+ nl +:+ nl +:+ nl]) = Return self1
    ∧ clean self1 = Return self2
    ∧ get_text self2 = "--- PAGE 1 --Transformer"
    ∧ String.length (get_text self2) ≤ String.length (raw_text self1)
    ∧ strip (get_text self2) = get_text self2
    ∧ raw_text self2 = raw_text self1.
Proof.
  eexists _, _. split; [reflexivity|]. split; [reflexivity|].
  split; [vm_compute; reflexivity|].
  eapply clean_only_removes. reflexivity.
Defined.

End PDFLoaderFacts.

(** ** The arXiv client *)

Module ArxivClientFacts.
Import ArxivClient Embedder Spec StringFacts.

#[local] Arguments append : simpl nomatch.

Lemma chars_lstrip (P : ascii → Prop) s :
  Forall P (chars_of s) → Forall P (chars_of (lstrip s)).
Proof.
  induction s as [|c s IH]; [done|]. intros Hs. simpl.
  destruct (is_space c); [|done]. apply IH. by inversion Hs.
Qed.

Lemma chars_rstrip (P : ascii → Prop) s :
  Forall P (chars_of s) → Forall P (chars_of (rstrip s)).
Proof.
  induction s as [|c s IH]; [done|]. intros Hs.
  inversion Hs as [|?? Hc Hs']; subst. specialize (IH Hs'). simpl.
  destruct (rstrip s) as [|d r].
  - destruct (is_space c); [constructor|]. by constructor.
  - by constructor.
Qed.

Lemma chars_strip (P : ascii → Prop) s :
  Forall P (chars_of s) → Forall P (chars_of (strip s)).
Proof. intros Hs. by apply chars_rstrip, chars_lstrip. Qed.

Lemma chars_slice_to (P : ascii → Prop) n : ∀ s,
  Forall P (chars_of s) → Forall P (chars_of (slice_to n s)).
Proof.
  induction n as [|n IH]; intros [|c s] Hs; simpl; try by constructor.
  inversion Hs; subst. constructor; [done|]. by apply IH.
Qed.

Lemma chars_join (P : ascii → Prop) sep l :
  Forall P (chars_of sep) →
  Forall (λ p, Forall P (chars_of p)) l →
  Forall P (chars_of (join sep l)).
Proof.
  intros Hsep. induction l as [|p l IH]; intros Hl; [constructor|].
  inversion Hl as [|?? Hp Hl']; subst. destruct l as [|p' l]; [done|].
  change (join sep (p :: p' :: l)) with (p +:+ sep +:+ join sep (p' :: l)).
  rewrite !IndexingFacts.chars_of_app, !Forall_app. auto.
Qed.

Lemma slice_to_length n : ∀ s, String.length (slice_to n s) ≤ n.
Proof.
  induction n as [|n IH]; intros [|c s]; simpl; try lia.
  specialize (IH s). lia.
Qed.

Lemma slice_to_idempotent n : ∀ s, slice_to n (slice_to n s) = slice_to n s.
Proof.
  induction n as [|n IH]; intros [|c s]; simpl; try done. by rewrite IH.
Qed.

(** The pieces of a split hold no separator, and nothing the text does
    not hold. *)
Lemma split_char_pieces c s :
  Forall (λ p, Forall (λ a, a ≠ c) (chars_of p)) (split_char c s).
Proof.
  induction s as [|a s IH]; simpl; [by repeat constructor|].
  case_bool_decide.
  - constructor; [constructor|done].
  - destruct (split_char c s) as [|piece pieces].
    + by repeat constructor.
    + inversion IH; subst. constructor; [by constructor|done].
Qed.

Lemma split_char_chars (P : ascii → Prop) c s :
  Forall P (chars_of s) →
  Forall (λ p, Forall P (chars_of p)) (split_char c s).
Proof.
  induction s as [|a s IH]; intros Hs; simpl; [by repeat constructor|].
  inversion Hs as [|?? Ha Hs']; subst. specialize (IH Hs').
  case_bool_decide.
  - constructor; [constructor|done].
  - destruct (split_char c s) as [|piece pieces].
    + by repeat constructor.
    + inversion IH; subst. constructor; [by constructor|done].
Qed.

Lemma split_char_not_empty c s : split_char c s ≠ [].
Proof.
  destruct s as [|a s]; simpl; [done|]. case_bool_decide; [done|].
  by destruct (split_char c s).
Qed.

(** Joining the pieces of a split with the separator gives the text
    back. *)
Lemma join_split_char c s : join (String c EmptyString) (split_char c s) = s.
Proof.
  induction s as [|a s IH]; [done|]. simpl.
  pose proof (split_char_not_empty c s) as Hne.
  destruct (split_char c s) as [|p ps]; [done|].
  case_bool_decide as Hc.
  - subst a. change (join (String c EmptyString) (EmptyString :: p :: ps))
      with (String c (join (String c EmptyString) (p :: ps))).
    by rewrite IH.
  - rewrite <- IH. by destruct ps.
Qed.

Lemma join_last sep l :
  l ≠ [] → ∃ pre, join sep l = pre +:+ last_piece l.
Proof.
  unfold last_piece. induction l as [|p l IH]; [done|]. intros _.
  destruct l as [|p' l]; [by exists EmptyString|].
  destruct IH as [pre IH]; [done|].
  exists (p +:+ sep +:+ pre).
  change (join sep (p :: p' :: l)) with (p +:+ sep +:+ join sep (p' :: l)).
  rewrite IH. change (last (p :: p' :: l)) with (last (p' :: l)).
  by rewrite !append_assoc.
Qed.

(** The last piece of a split is an end of the text. *)
Lemma split_char_last c s : ∃ pre, s = pre +:+ last_piece (split_char c s).
Proof.
  destruct (join_last (String c EmptyString) (split_char c s)) as [pre Hp].
  { apply split_char_not_empty. }
  exists pre. by rewrite <- Hp, join_split_char.
Qed.

Lemma prefix_head c old a s :
  a ≠ c → String.prefix (String c old) (String a s) = false.
Proof. intros Hne. simpl. by destruct (ascii_dec c a) as [->|]. Qed.

(** Nothing is replaced in a text that does not hold the first character
    of what is looked for. *)
Lemma replace_go_absent c old new s :
  Forall (λ a, a ≠ c) (chars_of s) →
  replace_go (String c old) new 0 s = s.
Proof.
  induction s as [|a s IH]; intros Hs; [done|].
  inversion Hs as [|?? Ha Hs']; subst.
  cbn [replace_go]. rewrite prefix_head by done. f_equal. by apply IH.
Qed.

Lemma replace_absent c old new s :
  Forall (λ a, a ≠ c) (chars_of s) → replace (String c old) new s = s.
Proof. intros Hs. unfold replace. simpl. by apply replace_go_absent. Qed.

Lemma filter_keeps {A} (P Q : A → Prop) `{∀ x, Decision (P x)} (l : list A) :
  Forall Q l → Forall Q (filter P l).
Proof.
  rewrite !Forall_forall. intros Hl x Hx.
  apply list_elem_of_filter in Hx as [_ Hx]. by apply Hl.
Qed.

Lemma filter_none {A} (P : A → Prop) `{∀ x, Decision (P x)} (l : list A) :
  Forall (λ x, ¬ P x) l → filter P l = [].
Proof.
  induction 1 as [|x l Hx Hl IH]; [done|].
  by rewrite filter_cons_False.
Qed.

(** X20. The keywords taken from a paper are one short line: at most 150
    characters with no line feed among them; they depend on the first 500
    characters of the text only, and are empty when the text is blank. *)
Theorem extract_keywords_one_short_line (text : string) :
  String.length (extract_keywords text) ≤ 150
  ∧ Forall (λ c, c ≠ PDFLoader.line_feed) (chars_of (extract_keywords text))
  ∧ extract_keywords (slice_to 500 text) = extract_keywords text
  ∧ (blank text → extract_keywords text = EmptyString).
Proof.
  split; [apply slice_to_length|]. split; [|split].
  - unfold extract_keywords. apply chars_slice_to, chars_join.
    { by repeat constructor. }
    apply Forall_take, Forall_fmap.
    eapply Forall_impl; [apply filter_keeps, split_char_pieces|].
    intros p Hp. by apply chars_strip.
  - unfold extract_keywords. by rewrite slice_to_idempotent.
  - intros Hb. unfold extract_keywords.
    assert (Forall (λ c, is_space c = true) (chars_of (slice_to 500 text)))
      as Hs by (by apply chars_slice_to).
    assert (Forall (λ a, a ≠ "-"%char) (chars_of (slice_to 500 text))) as Hd.
    { eapply Forall_impl; [exact Hs|]. by intros a Ha ->. }
    rewrite (replace_absent "-" _ _ (slice_to 500 text)) by done.
    rewrite (replace_absent "-" _ _ (slice_to 500 text)) by done.
    rewrite filter_none; [done|].
    eapply Forall_impl; [apply (split_char_chars _ _ _ Hs)|].
    intros p Hp Ht. simpl in Ht.
    apply (proj2 (PyFacts.truthy_strip p)) in Hp. congruence.
Qed.

Section search.
Context `{ArxivApi}.

(** X21. [search] returns one dictionary for each paper of the library,
    in its order; the [arxiv_id] of each is the end of the entry id of its
    paper and holds no slash, so [download_pdf] names the file by the id
    as it is, followed by [.pdf]. *)
Theorem search_ids_name_files (query : string) (max_results : Z)
    (results : list PaperDict) :
  search query max_results = Return results →
  arxiv_results query max_results = Return (paper_obj <$> results)
  ∧ Forall (λ d,
      Forall (λ c, c ≠ "/"%char) (chars_of (arxiv_id d))
      ∧ (∃ pre, entry_id (paper_obj d) = pre +:+ arxiv_id d)
      ∧ pdf_filename d = arxiv_id d +:+ ".pdf") results.
Proof.
  unfold search. destruct (arxiv_results query max_results) as [papers|e];
    [|done].
  simpl. intros [= <-]. split.
  - f_equal. rewrite <- list_fmap_compose. by rewrite list_fmap_id.
  - apply Forall_fmap, Forall_forall. intros p _. simpl.
    assert (Forall (λ c, c ≠ "/"%char)
              (chars_of (last_piece (split_char "/" (entry_id p))))) as Hid.
    { unfold last_piece.
      pose proof (split_char_pieces "/" (entry_id p)) as Hall.
      destruct (last (split_char "/" (entry_id p))) as [x|] eqn:E;
        [|constructor].
      apply last_Some_elem_of in E. rewrite Forall_forall in Hall.
      by apply Hall. }
    split; [done|]. split; [apply split_char_last|].
    unfold pdf_filename. cbn [arxiv_id paper_dict].
    by rewrite (replace_absent "/").
Qed.

End search.

Lemma search_ids_name_files_witness :
  ∃ results,
    search (H := Examples.library) "attention" 10 = Return results
    ∧ arxiv_id <$> results = ["1706.03762v7"; "1810.04805v2"; "9905111v3"]
    ∧ arxiv_results (ArxivApi := Examples.library) "attention" 10
      = Return (paper_obj <$> results)
    ∧ Forall (λ d,
        Forall (λ c, c ≠ "/"%char) (chars_of (arxiv_id d))
        ∧ (∃ pre, entry_id (paper_obj d) = pre +:+ arxiv_id d)
        ∧ pdf_filename d = arxiv_id d +:+ ".pdf") results.
Proof.
  eexists. split; [reflexivity|]. split; [reflexivity|].
  apply (search_ids_name_files (H := Examples.library) "attention" 10).
  reflexivity.
Defined.

(** The reference ranking keeps the laws. *)
Lemma insert_index_perm xs i l : insert_index xs i l ≡ₚ i :: l.
Proof.
  induction l as [|j l IH]; simpl; [done|].
  destruct (Qle_bool _ _); [done|]. rewrite IH. apply Permutation_swap.
Qed.

Lemma insert_index_sorted xs i l :
  Sorted Qle ((λ i, default 0%Q (xs !! i)) <$> l) →
  Sorted Qle ((λ i, default 0%Q (xs !! i)) <$> insert_index xs i l).
Proof.
  induction l as [|j l IH]; simpl; intros Hl.
  - repeat constructor.
  - destruct (Qle_bool (default 0%Q (xs !! i)) (default 0%Q (xs !! j))) eqn:E.
    + simpl. constructor; [done|]. constructor. by apply Qle_bool_iff.
    + simpl. inversion Hl as [|?? Hs Hd]; subst.
      constructor; [by apply IH|].
      assert (default 0 (xs !! j) <= default 0 (xs !! i))%Q as Hji.
      { apply Qlt_le_weak, Qnot_le_lt. intros Hle.
        apply Qle_bool_iff in Hle. congruence. }
      destruct l as [|z l]; simpl.
      * by constructor.
      * destruct (Qle_bool (default 0%Q (xs !! i)) (default 0%Q (xs !! z)));
          simpl; constructor; [done|].
        by inversion Hd.
Qed.

#[local] Instance exact_ranking_laws :
  RankingLaws (H := unit_similarity) (H0 := exact_argsort).
Proof.
  split.
  - intros x ys sims [= <-]. by rewrite length_fmap.
  - intros xs. unfold argsort, exact_argsort.
    induction (seq 0 (length xs)) as [|i l IH]; simpl; [done|].
    rewrite insert_index_perm. by constructor.
  - intros xs. unfold argsort, exact_argsort.
    induction (seq 0 (length xs)) as [|i l IH]; simpl; [constructor|].
    by apply insert_index_sorted.
Qed.



Lemma slice_upto_subset {A} (n : Z) (l : list A) : slice_upto n l ⊆ l.
Proof.
  unfold slice_upto. intros x Hx.
  destruct (0 <=? n)%Z; by apply elem_of_take in Hx as (i & Hx & _);
    apply list_elem_of_lookup_2 in Hx.
Qed.



Section recommending.
Context {api : ArxivApi} {embedder : World.Embedder} {model : SentenceModel}
  {sim : Similarity} {sort : ArgSort} {laws : RankingLaws}.

(** What [get_recommendations] does once the candidates are found and
    scored. *)
Lemma get_recommendations_run (self : ArxivClient.t)
    (uploaded_paper_text query_keywords : string) (top_n candidate_pool : Z)
    (candidates : list PaperDict) (e : list Q) (es : list (list Q))
    (sims : list Q) :
  has_embedder self = true →
  search query_keywords candidate_pool = Return candidates →
  candidates ≠ [] →
  embed_single (slice_to 2000 uploaded_paper_text) = Ok e →
  embed_texts (abstract <$> candidates) = Ok es →
  cosine_similarity e es = Return sims →
  get_recommendations self uploaded_paper_text query_keywords top_n
    candidate_pool
  = (recommendations ←
       lift (recommend_all candidates sims
               (slice_upto top_n (reverse (argsort sims))));
     _ ← lift (getitem recommendations 0);
     Return recommendations).
Proof.
  intros Hemb Hsearch Hne He Hes Hsims. unfold get_recommendations.
  rewrite Hemb, Hsearch. cbn [negb mbind outcome_bind obind].
  destruct candidates as [|c cs]; [done|].
  rewrite He, Hes. cbn [lift mbind outcome_bind obind]. by rewrite Hsims.
Qed.



(** X22. With candidates found and scored, [get_recommendations] fails
    with an [IndexError] when [top_n] selects no candidate: when it is 0,
    or negative and no smaller in size than the number of candidates. The
    error is raised by the line that reports the top recommendation. *)
Theorem get_recommendations_empty_selection (self : ArxivClient.t)
    (uploaded_paper_text query_keywords : string) (top_n candidate_pool : Z)
    (candidates : list PaperDict) (e : list Q) (es : list (list Q))
    (sims : list Q) :
  has_embedder self = true →
  search query_keywords candidate_pool = Return candidates →
  candidates ≠ [] →
  embed_single (slice_to 2000 uploaded_paper_text) = Ok e →
  embed_texts (abstract <$> candidates) = Ok es →
  length es = length candidates →
  cosine_similarity e es = Return sims →
  top_n = 0%Z ∨ (top_n < 0 ∧ Z.of_nat (length candidates) ≤ - top_n)%Z →
  get_recommendations self uploaded_paper_text query_keywords top_n
    candidate_pool
  = Throw (Builtin IndexError).
Proof using laws.
  intros Hemb Hsearch Hne He Hes Hlen Hsims Htop.
  rewrite (get_recommendations_run _ _ _ _ _ _ _ _ _ Hemb Hsearch Hne He Hes
             Hsims).
  assert (slice_upto top_n (reverse (argsort sims)) = []) as ->; [|done].
  unfold slice_upto. destruct Htop as [->|[Hneg Hsize]]; [done|].
  destruct (Z.leb_spec 0 top_n); [lia|].
  rewrite length_reverse, (Permutation_length (argsort_permutation sims)).
  rewrite length_seq, (similarity_length _ _ _ Hsims), Hlen.
  replace (length candidates - Z.to_nat (- top_n)) with 0 by lia. done.
Qed.


End recommending.

Lemma get_recommendations_empty_selection_witness :
  get_recommendations (H := Examples.library) (H0 := Examples.east_embedder)
    (H1 := Examples.length_model) (H2 := unit_similarity)
    (H3 := exact_argsort) {| has_embedder := true |}
    "Attention is all you need." "attention" 0 20
  = Throw (Builtin IndexError).
Proof.
  eapply (get_recommendations_empty_selection (api := Examples.library)
            (embedder := Examples.east_embedder)
            (model := Examples.length_model) (laws := exact_ranking_laws));
    [reflexivity|reflexivity|done|reflexivity|reflexivity|reflexivity
    |reflexivity|by left].
Defined.


End ArxivClientFacts.

(** ** From the index back to the chunks *)

Module RoundTripFacts.
Import Chunker ChunkerLists ChunkerFacts Embedder Indexing Spec
  VectorStoreFacts IndexingFacts.

Lemma insert_ranked_perm x l : insert_ranked x l ≡ₚ x :: l.
Proof.
  induction l as [|y l IH]; simpl; [done|].
  destruct (Qle_bool x.1 y.1); [done|]. rewrite IH. apply Permutation_swap.
Qed.

Lemma rank_items q items x : x ∈ rank q items → x.2 ∈ items.
Proof.
  unfold rank. induction items as [|it items IH]; simpl.
  - intros Hx. by apply elem_of_nil in Hx.
  - rewrite insert_ranked_perm. intros [->|Hx]%elem_of_cons.
    + by left.
    + right. by apply IH.
Qed.

(** The exact engine returns what the collection holds. *)
#[local] Instance exact_engine_sound : EngineSound (H := exact_engine).
Proof.
  split. intros c q k r ds ms. unfold engine_query, exact_engine.
  destruct (k <=? 0)%Z; [done|]. intros [= <-]. simpl.
  intros [= <-] [= <-]. apply Forall2_fmap, Forall2_same_length_lookup.
  split; [done|]. intros i x y Hx Hy. rewrite Hx in Hy. injection Hy as <-.
  exists x.2. split; [|done].
  apply (rank_items q). apply list_elem_of_lookup_2 in Hx.
  by apply elem_of_take in Hx as (j & Hx%list_elem_of_lookup_2 & _).
Qed.

Lemma search_rows_pairs (results : QueryResult) ds ms n : ∀ i l,
  documents results !! 0 = Some ds → metadatas results !! 0 = Some ms →
  search_rows results i n = Ok l →
  Forall (λ c, ∃ j, ds !! j = Some (VectorStore.text c)
                    ∧ ms !! j = Some (VectorStore.metadata c)) l.
Proof.
  induction n as [|n IH]; intros i l Hds Hms; cbn [search_rows].
  - intros [= <-]. constructor.
  - unfold search_row, getitem. rewrite Hds, Hms.
    cbn [mbind result_bind rbind].
    destruct (ds !! i) as [d|] eqn:Ed; cbn [mbind result_bind rbind]; [|done].
    destruct (ms !! i) as [m|] eqn:Em; cbn [mbind result_bind rbind]; [|done].
    destruct (distances results !! 0) as [dists|];
      cbn [mbind result_bind rbind]; [|done].
    destruct (dists !! i) as [x|]; cbn [mbind result_bind rbind]; [|done].
    destruct (search_rows results (S i) n) as [cs|] eqn:E;
      cbn [mbind result_bind rbind]; [|done].
    intros [= <-]. constructor; [by exists i|]. by apply (IH (S i)).
Qed.

Lemma new_items_lookup ids : ∀ embeddings documents metadatas it,
  it ∈ new_items ids embeddings documents metadatas →
  ∃ j, ids !! j = Some (item_id it)
       ∧ documents !! j = Some (item_document it)
       ∧ metadatas !! j = Some (item_metadata it).
Proof.
  induction ids as [|i ids IH]; intros [|e es] [|d ds] [|m ms] it Hit;
    simpl in Hit; try by apply elem_of_nil in Hit.
  apply elem_of_cons in Hit as [->|Hit].
  - by exists 0.
  - destruct (IH _ _ _ _ Hit) as (j & ? & ? & ?). by exists (S j).
Qed.

Section round_trip.
Context `{SentenceModel, AdderLaws} {engine : Engine} {sound : EngineSound}.

(** X24. What was indexed is what is found: after the chunks of a paper
    were stored in a collection that did not exist, every entry a search
    of that collection returns is one of the chunks, with its text and its
    own metadata; the search leaves the index as it was. *)
Theorem search_returns_indexed_chunks (self self' : Chunker.t)
    (text source_name : string) (cl cl1 cl2 : Client)
    (collection_name : string) (embeddings : list (list Q)) (dim : nat)
    (query_embedding : list Q) (n_results : Z) (found : list ScoredChunk) :
  cl !! collection_name = None →
  split self text source_name = Ok self' →
  embed_texts (get_texts_only self') = Ok embeddings →
  length embeddings = length (get_texts_only self') →
  (0 < dim)%nat →
  (∀ e, e ∈ embeddings → length e = dim) →
  add_chunks cl collection_name (get_ids_only self') embeddings
    (get_texts_only self') (metadata_dict <$> get_metadatas_only self')
  = (Ok collection_name, cl1) →
  search cl1 collection_name query_embedding n_results = (Ok found, cl2) →
  cl2 = cl1
  ∧ Forall (λ c, ∃ chunk,
      chunk ∈ get_chunks self'
      ∧ VectorStore.text c = Chunker.text chunk
      ∧ VectorStore.metadata c = metadata_dict (Chunker.metadata chunk))
      found.
Proof using Type*.
  intros Hnew Hs He Hlen Hdim Hes Hadd Hsearch.
  assert (get_texts_only self' ≠ []) as Hne.
  { intros Hnil. rewrite Hnil in He. done. }
  unfold get_texts_only, get_ids_only, get_metadatas_only, get_chunks in *.
  rewrite length_fmap in Hlen.
  destruct (add_chunks_appends cl collection_name (id <$> chunks self')
              embeddings (Chunker.text <$> chunks self')
              (metadata_dict <$> (Chunker.metadata <$> chunks self')) dim)
    as (cl' & c' & Hadd' & Hc' & Hitems & _).
  - intros Hnil. apply Hne. apply fmap_nil_inv in Hnil. by rewrite Hnil.
  - by rewrite length_fmap.
  - by rewrite !length_fmap.
  - by rewrite !length_fmap.
  - by apply (split_ids_distinct self self' text source_name).
  - done.
  - done.
  - intros m Hm. apply list_elem_of_fmap in Hm as (x & -> & _).
    apply metadata_dict_not_empty.
  - intros c it Hc. by rewrite Hnew in Hc.
  - rewrite Hadd in Hadd'. injection Hadd' as <-.
    rewrite Hnew in Hitems. cbn [from_option app] in Hitems.
    unfold search in Hsearch.
    rewrite (create_collection_existing _ _ _ Hc') in Hsearch.
    injection Hsearch as Hfound <-. split; [done|].
    unfold query in Hfound. rewrite Hc' in Hfound.
    destruct (engine_query c' query_embedding n_results) as [r|] eqn:Eq;
      [|done].
    cbn [mbind result_bind rbind] in Hfound. unfold getitem in Hfound.
    destruct (documents r !! 0) as [ds|] eqn:Eds; [|done].
    cbn [mbind result_bind rbind] in Hfound.
    destruct (metadatas r !! 0) as [ms|] eqn:Ems.
    2:{ destruct ds as [|d ds]; [by injection Hfound as <-|].
        cbn [length search_rows] in Hfound. unfold search_row in Hfound.
        unfold getitem in Hfound. rewrite Eds, Ems in Hfound. done. }
    pose proof (query_from_items _ _ _ _ _ _ Eq Eds Ems) as Hsound.
    pose proof (search_rows_pairs r ds ms _ _ _ Eds Ems Hfound) as Hpairs.
    eapply Forall_impl; [exact Hpairs|].
    intros c (j & Hd & Hm). simpl in Hd, Hm.
    destruct (Forall2_lookup_lr _ _ _ _ _ _ Hsound Hd Hm)
      as (it & Hit & Hdoc & Hmeta).
    rewrite Hitems in Hit. apply new_items_lookup in Hit as (n & _ & Ht & Hmd).
    rewrite list_lookup_fmap in Ht. rewrite !list_lookup_fmap in Hmd.
    destruct (chunks self' !! n) as [chunk|] eqn:En; [|done].
    exists chunk. split; [by eapply list_elem_of_lookup_2|].
    simpl in Ht, Hmd. injection Ht as Ht. injection Hmd as Hmd.
    split; congruence.
Qed.

End round_trip.

Lemma search_returns_indexed_chunks_witness :
  ∃ self' cl1 found,
    split Examples.small_chunker Examples.two_sentences "paper" = Ok self'
    ∧ add_chunks (H := checked_append) ∅ "research_papers"
        (get_ids_only self') [[25; 1]; [37; 1]]%Q (get_texts_only self')
        (metadata_dict <$> get_metadatas_only self')
      = (Ok "research_papers", cl1)
    ∧ search (H := exact_engine) cl1 "research_papers" [1; 0]%Q 1
      = (Ok found, cl1)
    ∧ VectorStore.text <$> found = [". The encoder maps an input sequence."]
    ∧ Forall (λ c, ∃ chunk,
        chunk ∈ get_chunks self'
        ∧ VectorStore.text c = Chunker.text chunk
        ∧ VectorStore.metadata c = metadata_dict (Chunker.metadata chunk))
        found.
Proof.
  eexists _, _, _. split; [reflexivity|]. split; [vm_compute; reflexivity|].
  split; [vm_compute; reflexivity|]. split; [reflexivity|].
  eapply (search_returns_indexed_chunks (H := Examples.length_model)
            (H0 := checked_append) (H1 := checked_append_laws)
            (engine := exact_engine) (sound := exact_engine_sound)
            Examples.small_chunker _ Examples.two_sentences "paper" ∅ _ _
            "research_papers" [[25; 1]; [37; 1]]%Q 2 [1; 0]%Q 1).
  - reflexivity.
  - reflexivity.
  - vm_compute. reflexivity.
  - vm_compute. reflexivity.
  - lia.
  - intros e He. among; reflexivity.
  - vm_compute. reflexivity.
  - vm_compute. reflexivity.
Defined.

End RoundTripFacts.
